(** * The newsletter dispatch engine of [main.py] (class [NewsletterSender])

    A shallow embedding of the suppression-list loader, the rate limiter and
    the per-recipient dispatch loop, together with the properties the
    specification states about them.

    Modelling conventions.
    - Python [str] values are [string]s; the model covers ASCII text, on
      which [str.strip], [str.lower] and the [in] substring test are the
      functions [strip], [lower] and [contains] below.
    - Wall-clock readings and sleep durations are exact rationals ([Q]).
    - The network is an oracle ([World]): for the attempt number [a] made
      for the recipient at position [i] it tells what [server.send_message]
      did, what [time.time()] returned, and whether a reconnect succeeded.
    - Everything observable is recorded: the rows of the results file, and a
      trace of sleeps, send attempts, reconnects and end-of-run reports.
    - Writing a row, printing, logging and closing the session succeed.
    - Python's [csv] module is not part of the repository; its reader and
      [DictReader] are written out for the default dialect, as far as the
      loader depends on them. *)

From Stdlib Require Import ZArith QArith List String Ascii Lia DecimalString.
From stdpp Require Import base gmap strings list.

Open Scope string_scope.
Open Scope list_scope.

(** ** Python string methods (ASCII) *)

Module Py.

(** [str.isspace] on one ASCII character: TAB..CR, FS..US and the blank. *)
Definition isspace (c : ascii) : bool :=
  let n := nat_of_ascii c in
  (Nat.leb 9 n && Nat.leb n 13) || (Nat.leb 28 n && Nat.leb n 32).

Definition lower_char (c : ascii) : ascii :=
  let n := nat_of_ascii c in
  if Nat.leb 65 n && Nat.leb n 90 then ascii_of_nat (n + 32) else c.

Fixpoint lower (s : string) : string :=
  match s with
  | EmptyString => EmptyString
  | String c s' => String (lower_char c) (lower s')
  end.

Fixpoint lstrip (s : string) : string :=
  match s with
  | EmptyString => EmptyString
  | String c s' => if isspace c then lstrip s' else s
  end.

Fixpoint rstrip (s : string) : string :=
  match s with
  | EmptyString => EmptyString
  | String c s' =>
      match rstrip s' with
      | EmptyString => if isspace c then EmptyString else String c EmptyString
      | t => String c t
      end
  end.

Definition strip (s : string) : string := lstrip (rstrip s).

(** [needle in hay]. *)
Fixpoint contains (needle hay : string) : bool :=
  String.prefix needle hay ||
  match hay with
  | EmptyString => false
  | String _ hay' => contains needle hay'
  end.

(** The status code of a rejection as the handlers see it: [None] or an
    integer. *)
Definition Code : Type := option Z.

(** [str(code)]. *)
Definition str_code (c : Code) : string :=
  match c with
  | None => "None"
  | Some z => NilZero.string_of_int (Z.to_int z)
  end.

(** [code == 556]. *)
Definition code_is (c : Code) (z : Z) : bool :=
  match c with
  | Some z' => Z.eqb z' z
  | None => false
  end.

End Py.

(** ** The [csv] module, as far as the loader uses it *)

Module Csv.

Definition LF : ascii := "010"%char.
Definition CR : ascii := "013"%char.
Definition COMMA : ascii := ","%char.
Definition QUOTE : ascii := ascii_of_nat 34.

Definition snoc (s : string) (c : ascii) : string := s +:+ String c EmptyString.

(** The lines of a text file opened with [newline=''], each with its own
    terminator (LF, CR or CR LF). *)
Fixpoint lines_from (cur s : string) : list string :=
  match s with
  | EmptyString => match cur with EmptyString => [] | _ => [cur] end
  | String c s' =>
      if Ascii.eqb c LF then snoc cur c :: lines_from EmptyString s'
      else if Ascii.eqb c CR then
        match s' with
        | String c' s'' =>
            if Ascii.eqb c' LF
            then snoc (snoc cur c) c' :: lines_from EmptyString s''
            else snoc cur c :: lines_from EmptyString s'
        | EmptyString => [snoc cur c]
        end
      else lines_from (snoc cur c) s'
  end.

Definition readlines (text : string) : list string := lines_from EmptyString text.

(** [f.readline()] at the start of the file. *)
Definition readline (text : string) : string :=
  match readlines text with
  | l :: _ => l
  | [] => EmptyString
  end.

(** The reader's automaton for the default ([excel]) dialect. *)
Inductive ParserState :=
| START_RECORD | START_FIELD | IN_FIELD
| IN_QUOTED_FIELD | QUOTE_IN_QUOTED_FIELD | EAT_CRNL.

Record Parser := {
  pstate : ParserState;
  field : string;
  fields : list string
}.

Definition parse_reset : Parser :=
  {| pstate := START_RECORD; field := EmptyString; fields := [] |}.

Definition add_char (p : Parser) (c : ascii) (s : ParserState) : Parser :=
  {| pstate := s; field := snoc (field p) c; fields := fields p |}.

Definition save_field (p : Parser) (s : ParserState) : Parser :=
  {| pstate := s; field := EmptyString; fields := fields p ++ [field p] |}.

Definition goto (p : Parser) (s : ParserState) : Parser :=
  {| pstate := s; field := field p; fields := fields p |}.

Definition is_newline (c : ascii) : bool := Ascii.eqb c LF || Ascii.eqb c CR.

Definition start_field (p : Parser) (c : option ascii) : Parser :=
  match c with
  | None => save_field p START_RECORD
  | Some c =>
      if is_newline c then save_field p EAT_CRNL
      else if Ascii.eqb c QUOTE then goto p IN_QUOTED_FIELD
      else if Ascii.eqb c COMMA then save_field p START_FIELD
      else add_char p c IN_FIELD
  end.

(** One step on a character, or on the end-of-line mark [None]; the
    result [None] is the reader's [csv.Error]. *)
Definition parse_process_char (p : Parser) (c : option ascii) : option Parser :=
  match pstate p with
  | START_RECORD =>
      match c with
      | None => Some p
      | Some c' =>
          if is_newline c' then Some (goto p EAT_CRNL)
          else Some (start_field p c)
      end
  | START_FIELD => Some (start_field p c)
  | IN_FIELD =>
      match c with
      | None => Some (save_field p START_RECORD)
      | Some c =>
          if is_newline c then Some (save_field p EAT_CRNL)
          else if Ascii.eqb c COMMA then Some (save_field p START_FIELD)
          else Some (add_char p c IN_FIELD)
      end
  | IN_QUOTED_FIELD =>
      match c with
      | None => Some p
      | Some c =>
          if Ascii.eqb c QUOTE then Some (goto p QUOTE_IN_QUOTED_FIELD)
          else Some (add_char p c IN_QUOTED_FIELD)
      end
  | QUOTE_IN_QUOTED_FIELD =>
      match c with
      | None => Some (save_field p START_RECORD)
      | Some c =>
          if Ascii.eqb c QUOTE then Some (add_char p c IN_QUOTED_FIELD)
          else if Ascii.eqb c COMMA then Some (save_field p START_FIELD)
          else if is_newline c then Some (save_field p EAT_CRNL)
          else Some (add_char p c IN_FIELD)
      end
  | EAT_CRNL =>
      match c with
      | None => Some (goto p START_RECORD)
      | Some c => if is_newline c then Some p else None
      end
  end.

Fixpoint feed_line (p : Parser) (line : string) : option Parser :=
  match line with
  | EmptyString => parse_process_char p None
  | String c line' =>
      match parse_process_char p (Some c) with
      | Some p' => feed_line p' line'
      | None => None
      end
  end.

Definition is_start_record (s : ParserState) : bool :=
  match s with START_RECORD => true | _ => false end.

Definition is_in_quoted (s : ParserState) : bool :=
  match s with IN_QUOTED_FIELD => true | _ => false end.

Definition nonempty (s : string) : bool :=
  match s with EmptyString => false | _ => true end.

(** The rows [csv.reader] yields over the given lines. *)
Fixpoint reader_from (p : Parser) (lines : list string) : option (list (list string)) :=
  match lines with
  | [] =>
      if nonempty (field p) || is_in_quoted (pstate p)
      then Some [fields (save_field p START_RECORD)]
      else Some []
  | l :: ls =>
      match feed_line p l with
      | None => None
      | Some p' =>
          if is_start_record (pstate p')
          then option_map (cons (fields p')) (reader_from parse_reset ls)
          else reader_from p' ls
      end
  end.

Definition reader (text : string) : option (list (list string)) :=
  reader_from parse_reset (readlines text).

(** The dictionary [csv.DictReader] builds for one data row: the header's
    names zipped with the row's cells, then [None] for the names the row
    is too short for (the surplus cells go under the key [None], which no
    string key reads). *)
Definition dict_row (fieldnames row : list string) : gmap string (option string) :=
  let zipped :=
    foldl (fun d kv => <[ fst kv := Some (snd kv) ]> d) ∅ (combine fieldnames row) in
  foldl (fun d k => <[ k := None ]> d) zipped (skipn (length row) fieldnames).

(** [row.get(key)], with [None] for a missing key and for a stored [None]. *)
Definition dict_get (d : gmap string (option string)) (key : string) : option string :=
  match d !! key with
  | Some v => v
  | None => None
  end.

Definition is_empty_row (row : list string) : bool :=
  match row with [] => true | _ => false end.

(** The dictionaries [csv.DictReader] yields: the first row names the
    fields, empty rows are skipped. *)
Definition dict_reader (rows : list (list string)) : list (gmap string (option string)) :=
  match rows with
  | [] => []
  | fieldnames :: body =>
      map (dict_row fieldnames) (List.filter (fun r => negb (is_empty_row r)) body)
  end.

End Csv.

(** ** Exceptions and results *)

(** The exception classes the code tells apart; every other class behaves
    as [OtherException] (caught by [except Exception] only). *)
Inductive Exn :=
| FileNotFoundError (msg : string)
| SMTPAuthenticationError (msg : string)
| SMTPServerDisconnected (msg : string)
| OtherException (msg : string).

Inductive Result (A : Type) :=
| Ok (a : A)
| Raised (e : Exn).
Arguments Ok {A} a.
Arguments Raised {A} e.

(** ** The suppression-list loader, [_read_blacklist] *)

(** What opening the suppression file gives: no such file, another error
    ([os.path.getsize], [open] or a read failing), or the file's text. *)
Inductive FileRead :=
| Missing (msg : string)
| Unreadable (msg : string)
| Content (text : string).

(** [(cell or '').strip().lower()]. *)
Definition normalize (cell : option string) : string :=
  Py.lower (Py.strip (default EmptyString cell)).

(** The [has_header] branch: one dictionary per data row. *)
Definition read_headered (rows : list (list string)) : gset string :=
  foldl (fun blacklisted row =>
           let email := normalize (Csv.dict_get row "email") in
           if Csv.nonempty email then {[ email ]} ∪ blacklisted else blacklisted)
        ∅ (Csv.dict_reader rows).

(** The plain-reader branch: the first cell of every non-empty row. *)
Definition read_headerless (rows : list (list string)) : gset string :=
  foldl (fun blacklisted row =>
           match row with
           | [] => blacklisted
           | cell :: _ =>
               let email := normalize (Some cell) in
               if String.eqb email "email" then blacklisted
               else if Csv.nonempty email then {[ email ]} ∪ blacklisted
               else blacklisted
           end)
        ∅ rows.

Definition has_header (peek : string) : bool :=
  Py.contains "email" (Py.lower peek).

Definition _read_blacklist (f : FileRead) : Result (gset string) :=
  match f with
  | Missing msg => Raised (FileNotFoundError msg)
  | Unreadable msg => Raised (OtherException msg)
  | Content text =>
      let peek := Csv.readline text in
      match Csv.reader text with
      | None => Raised (OtherException "csv.Error")
      | Some rows =>
          Ok (if has_header peek then read_headered rows else read_headerless rows)
      end
  end.

(** ** The dispatch engine's data *)

(** A row of the recipient file as [csv.DictReader] gives it. The file has
    an [email] column (the specification requires it); a row too short for
    it holds [None] there. The other columns are not read by the engine. *)
Record Recipient := {
  email : option string
}.

(** [recipient['email']] as the csv writer prints it ([None] as nothing). *)
Definition email_cell (r : Recipient) : string := default EmptyString (email r).

(** One row of the results file: [email, status, error_message]. *)
Record OutcomeRecord := {
  address : string;
  status : string;
  detail : string
}.

(** The call sites of [time.sleep]. *)
Inductive Site := BatchCooldown | Spacing | ReconnectDelay | PolicyPause.

(** The closing reports, each printing the last successful address and the
    sent count. *)
Inductive ReportKind :=
| StoppedOnError | StoppedAfterRetries | ProcessComplete | FatalError.

Inductive Event :=
| Sleep (site : Site) (seconds : Q)
| SendAttempt (to_ : option string)
| Reconnect
| Report (kind : ReportKind) (last_successful : option string) (sent : Z).

(** The run counters of the sender object, the rows written to the results
    file so far, and the trace. *)
Record State := {
  sent_count : Z;
  last_send_time : Q;
  last_successful_email : option string;
  rows : list OutcomeRecord;
  trace : list Event
}.

Definition log (e : Event) (st : State) : State :=
  {| sent_count := sent_count st;
     last_send_time := last_send_time st;
     last_successful_email := last_successful_email st;
     rows := rows st;
     trace := trace st ++ [e] |}.

Definition log_all (es : list Event) (st : State) : State :=
  {| sent_count := sent_count st;
     last_send_time := last_send_time st;
     last_successful_email := last_successful_email st;
     rows := rows st;
     trace := trace st ++ es |}.

Definition writerow (r : OutcomeRecord) (st : State) : State :=
  {| sent_count := sent_count st;
     last_send_time := last_send_time st;
     last_successful_email := last_successful_email st;
     rows := rows st ++ [r];
     trace := trace st |}.

Definition reset_sent_count (st : State) : State :=
  {| sent_count := 0;
     last_send_time := last_send_time st;
     last_successful_email := last_successful_email st;
     rows := rows st;
     trace := trace st |}.

(** Lines 244-246: the three counters after a successful send. *)
Definition record_success (now : Q) (r : Recipient) (st : State) : State :=
  {| sent_count := sent_count st + 1;
     last_send_time := now;
     last_successful_email := email r;
     rows := rows st;
     trace := trace st |}.

(** [config['rate_limit']]. *)
Record RateLimit := {
  emails_per_batch : Z;
  batch_delay : Z;
  delay_between_emails : Q
}.

(** What lines 225-238 (building the message, [server.send_message]) do in
    one attempt. *)
Inductive RefusedInfo :=
| InfoTuple (code : Py.Code) (raw_msg : option string)
    (* the first refused recipient maps to a tuple: its first element, and
       its second when there is one, decoded *)
| InfoOther (repr : string)
    (* it maps to something else: [str(info)] *)
| NoInfo (repr : string).
    (* [e.recipients] is no non-empty dict: [str(e)] *)

Inductive SendOutcome :=
| Delivered
| ServerDisconnected (msg : string)
| RecipientsRefused (info : RefusedInfo)
| DataError (smtp_code : Py.Code) (smtp_error : string)
| OtherFailure (msg : string).

Record World := {
  clock_rate_limit : nat -> nat -> Q;
  send_message : nat -> nat -> SendOutcome;
  clock_sent : nat -> nat -> Q;
  reconnect : nat -> nat -> option Exn
}.

(** How the body of the attempt loop is left. *)
Inductive LoopExit :=
| Break
| NextAttempt
| ReturnNow
| RaiseNow (e : Exn).

(** How the processing of one recipient ends. *)
Inductive Control :=
| Continue
| Return
| Raise (e : Exn).

(** The flags [email_sent_successfully] and [non_fatal_skip]. *)
Record Flags := {
  email_sent_successfully : bool;
  non_fatal_skip : bool
}.

Definition no_flags : Flags :=
  {| email_sent_successfully := false; non_fatal_skip := false |}.
Definition sent_flag : Flags :=
  {| email_sent_successfully := true; non_fatal_skip := false |}.
Definition skip_flag : Flags :=
  {| email_sent_successfully := false; non_fatal_skip := true |}.

Definition retries : nat := 3.

(** ** The rate limiter, [_rate_limit] *)

Definition Qltb (x y : Q) : bool := negb (Qle_bool y x).

(** [for remaining in range(batch_delay, 0, -1): time.sleep(1)]. *)
Definition countdown (delay : Z) : list Event :=
  repeat (Sleep BatchCooldown 1) (Z.to_nat delay).

Definition _rate_limit (cfg : RateLimit) (current_time : Q) (st : State) : State :=
  if (emails_per_batch cfg <=? sent_count st)%Z then
    reset_sent_count (log_all (countdown (batch_delay cfg)) st)
  else
    let time_since_last := (current_time - last_send_time st)%Q in
    if Qltb time_since_last (delay_between_emails cfg) then
      let wait_time := (delay_between_emails cfg - time_since_last)%Q in
      log (Sleep Spacing wait_time) st
    else st.

(** ** The dispatch loop of [send_newsletters] *)

Section Engine.

Variable cfg : RateLimit.
Variable world : World.
Variable blacklist_emails : gset string.
Variable stop_on_error : bool.

(** [f'{code} {message}'.strip()]. *)
Definition code_message (code : Py.Code) (message : string) : string :=
  Py.strip (Py.str_code code +:+ " " +:+ message).

Definition outcome_row (r : Recipient) (st d : string) : OutcomeRecord :=
  {| address := email_cell r; status := st; detail := d |}.

Definition stop_report (kind : ReportKind) (st : State) : State :=
  log (Report kind (last_successful_email st) (sent_count st)) st.

(** Lines 260-273: the code and message of a refused recipient. *)
Definition refused_code_message (info : RefusedInfo) : Py.Code * string :=
  match info with
  | InfoTuple code raw_msg => (code, default EmptyString raw_msg)
  | InfoOther repr => (None, repr)
  | NoInfo repr => (None, repr)
  end.

(** Lines 275-303, and again 310-338: the two typed handlers share this
    text once the code and the message are extracted. *)
Definition handle_rejection (r : Recipient) (code : Py.Code) (message : string)
           (st : State) : State * Flags * LoopExit :=
  if Py.code_is code 556 then
    (writerow (outcome_row r "skipped" (code_message code message)) st,
     skip_flag, Break)
  else if Py.contains "policy violation" (Py.lower message) then
    (log (Sleep PolicyPause 600)
         (writerow (outcome_row r "skipped_policy_violation" (code_message code message)) st),
     skip_flag, Break)
  else
    let st1 := writerow (outcome_row r "failed" (code_message code message)) st in
    if stop_on_error then (stop_report StoppedOnError st1, no_flags, ReturnNow)
    else (st1, no_flags, Break).

(** Lines 339-362: [except Exception]. *)
Definition handle_exception (r : Recipient) (error_msg : string)
           (st : State) : State * Flags * LoopExit :=
  if Py.contains "policy violation" (Py.lower error_msg) then
    (log (Sleep PolicyPause 600)
         (writerow (outcome_row r "skipped_policy_violation" error_msg) st),
     skip_flag, Break)
  else
    let st1 := writerow (outcome_row r "failed" error_msg) st in
    if stop_on_error then (stop_report StoppedOnError st1, no_flags, ReturnNow)
    else (st1, no_flags, Break).

(** Lines 250-258: [except SMTPServerDisconnected]. The [raise] of the
    last attempt leaves the [try] statement: the handlers that follow it
    belong to the same [try] and do not see it. A failing reconnect
    leaves it likewise. *)
Definition handle_disconnect (i attempt : nat) (msg : string)
           (st : State) : State * Flags * LoopExit :=
  if Nat.ltb attempt (retries - 1) then
    let st1 := log (Sleep ReconnectDelay 5) st in
    match reconnect world i attempt with
    | None => (log Reconnect st1, no_flags, NextAttempt)
    | Some e => (st1, no_flags, RaiseNow e)
    end
  else (st, no_flags, RaiseNow (SMTPServerDisconnected msg)).

(** The body of [for attempt in range(retries)], lines 219-362. *)
Definition attempt_body (i : nat) (r : Recipient) (attempt : nat)
           (st : State) : State * Flags * LoopExit :=
  let st1 := _rate_limit cfg (clock_rate_limit world i attempt) st in
  let st2 := log (SendAttempt (email r)) st1 in
  match send_message world i attempt with
  | Delivered =>
      let st3 := writerow (outcome_row r "success" EmptyString) st2 in
      (record_success (clock_sent world i attempt) r st3, sent_flag, Break)
  | ServerDisconnected msg => handle_disconnect i attempt msg st2
  | RecipientsRefused info =>
      let cm := refused_code_message info in
      handle_rejection r (fst cm) (snd cm) st2
  | DataError code msg => handle_rejection r code msg st2
  | OtherFailure msg => handle_exception r msg st2
  end.

(** The attempt loop: [remaining] iterations are left, the next one has
    the index [attempt]. A loop that runs out ends like a [break] with
    both flags unset. *)
Fixpoint attempt_loop (i : nat) (r : Recipient) (remaining attempt : nat)
         (st : State) : State * Flags * LoopExit :=
  match remaining with
  | O => (st, no_flags, Break)
  | S remaining' =>
      match attempt_body i r attempt st with
      | (st', _, NextAttempt) => attempt_loop i r remaining' (S attempt) st'
      | res => res
      end
  end.

(** Lines 203-370: one iteration of the loop over the recipients. *)
Definition process_recipient (i : nat) (r : Recipient) (st : State) : State * Control :=
  let recipient_email := Py.strip (email_cell r) in
  let recipient_email_lc := Py.lower recipient_email in
  if bool_decide (recipient_email_lc ∈ blacklist_emails) then
    (writerow {| address := recipient_email;
                 status := "skipped_blacklist";
                 detail := "blacklisted" |} st,
     Continue)
  else
    match attempt_loop i r retries 0 st with
    | (st', _, RaiseNow e) => (st', Raise e)
    | (st', _, ReturnNow) => (st', Return)
    | (st', flags, _) =>
        if negb (email_sent_successfully flags) && stop_on_error
           && negb (non_fatal_skip flags)
        then (stop_report StoppedAfterRetries st', Return)
        else (st', Continue)
    end.

(** [for index, recipient in enumerate(recipients, 1)]. *)
Fixpoint dispatch (i : nat) (recipients : list Recipient) (st : State) : State * Control :=
  match recipients with
  | [] => (st, Continue)
  | r :: rest =>
      match process_recipient i r st with
      | (st', Continue) => dispatch (S i) rest st'
      | res => res
      end
  end.

End Engine.

(** ** [send_newsletters] and [main] *)

(** What the run finds around it, in the order it asks. *)
Record Setup := {
  blacklist_file : FileRead;
  smtp_test : option Exn;                     (* [_test_smtp_connection]; [None]: it passed *)
  template_file : option Exn;                 (* [_read_template] *)
  recipients_file : Result (list Recipient);  (* [_read_recipients] *)
  session_open : option Exn                   (* the run's [SMTP_SSL] and [login] *)
}.

(** How the call of [send_newsletters] ends. *)
Inductive Outcome :=
| Finished                (* every recipient was processed *)
| StoppedEarly            (* a [return] inside the loop over the recipients *)
| BlacklistAbort          (* the [return] of line 172 *)
| Propagated (e : Exn).   (* an exception leaves the method *)

Record Run := {
  outcome : Outcome;
  results_file : option (list OutcomeRecord);  (* [None]: no file was created *)
  final : State
}.

(** The sender object as [__init__] leaves it. *)
Definition init : State :=
  {| sent_count := 0;
     last_send_time := 0;
     last_successful_email := None;
     rows := [];
     trace := [] |}.

(** A new results file: the header row only. *)
Definition open_results (st : State) : State :=
  {| sent_count := sent_count st;
     last_send_time := last_send_time st;
     last_successful_email := last_successful_email st;
     rows := [];
     trace := trace st |}.

Definition no_file (o : Outcome) (st : State) : Run :=
  {| outcome := o; results_file := None; final := st |}.

Definition with_file (o : Outcome) (st : State) : Run :=
  {| outcome := o; results_file := Some (rows st); final := st |}.

(** How the loop over the recipients was left decides the end of the run:
    the closing report, a [return] from inside the loop, or lines 376-381,
    the fatal-error report and the exception raised again. The results file
    is closed with the rows written so far. *)
Definition close_run (res : State * Control) : Run :=
  match res with
  | (st', Continue) => with_file Finished (stop_report ProcessComplete st')
  | (st', Return) => with_file StoppedEarly st'
  | (st', Raise e) => with_file (Propagated e) (stop_report FatalError st')
  end.

Definition send_newsletters (cfg : RateLimit) (world : World) (env : Setup)
           (stop_on_error : bool) (self : State) : Run :=
  match _read_blacklist (blacklist_file env) with
  | Raised _ => no_file BlacklistAbort self
  | Ok blacklist_emails =>
      match smtp_test env with
      | Some e => no_file (Propagated e) self
      | None =>
          match template_file env with
          | Some e => no_file (Propagated e) self
          | None =>
              match recipients_file env with
              | Raised e => no_file (Propagated e) self
              | Ok recipients =>
                  let st := open_results self in
                  match session_open env with
                  | Some e => with_file (Propagated e) (stop_report FatalError st)
                  | None =>
                      close_run
                        (dispatch cfg world blacklist_emails stop_on_error 1 recipients st)
                  end
              end
          end
      end
  end.

(** How the process ends. *)
Inductive Exit :=
| CompletedSuccessfully       (* "Script completed successfully!" *)
| FailedWith (e : Exn).       (* "Script failed with error", and the exception re-raised *)

Definition main (cfg : RateLimit) (world : World) (env : Setup) : Exit * Run :=
  let run := send_newsletters cfg world env true init in
  match outcome run with
  | Propagated e => (FailedWith e, run)
  | _ => (CompletedSuccessfully, run)
  end.

(** ** Vocabulary of the properties *)

(** The code and the message the two typed handlers work on. *)
Definition rejection (o : SendOutcome) : option (Py.Code * string) :=
  match o with
  | RecipientsRefused info => Some (refused_code_message info)
  | DataError code msg => Some (code, msg)
  | _ => None
  end.

Definition is_disconnect (o : SendOutcome) : bool :=
  match o with ServerDisconnected _ => true | _ => false end.

(** The message of a failed attempt: the extracted one for a typed
    rejection, [str(e)] otherwise. *)
Definition failure_message (o : SendOutcome) : option string :=
  match o with
  | Delivered => None
  | ServerDisconnected msg => Some msg
  | RecipientsRefused info => Some (snd (refused_code_message info))
  | DataError _ msg => Some msg
  | OtherFailure msg => Some msg
  end.

(** The failure's message contains [policy violation], whatever the case. *)
Definition has_policy_text (o : SendOutcome) : bool :=
  match failure_message o with
  | Some m => Py.contains "policy violation" (Py.lower m)
  | None => false
  end.

(** The rejection carries the code 556. *)
Definition has_code_556 (o : SendOutcome) : bool :=
  match rejection o with
  | Some (code, _) => Py.code_is code 556
  | None => false
  end.

(** The third column of the row a handled failure gets. *)
Definition failure_detail (o : SendOutcome) : string :=
  match rejection o with
  | Some (code, message) => code_message code message
  | None => default EmptyString (failure_message o)
  end.

(** A failure none of the classifications applies to. *)
Definition unclassified (o : SendOutcome) : bool :=
  match o with
  | Delivered => false
  | _ => negb (is_disconnect o) && negb (has_code_556 o) && negb (has_policy_text o)
  end.

(** The attempts [0 .. k-1] for the recipient at position [i] each lost the
    connection and got it back. *)
Definition retried (world : World) (i k : nat) : Prop :=
  forall j, j < k ->
    is_disconnect (send_message world i j) = true /\ reconnect world i j = None.

(** [recipient_email_lc in blacklist_emails]. *)
Definition suppressed (blacklist_emails : gset string) (r : Recipient) : Prop :=
  Py.lower (Py.strip (email_cell r)) ∈ blacklist_emails.

(** Events of an attempt that is retried or about to be classified: the
    rate limiter's waits, the send, the reconnect and its delay. *)
Definition is_attempt_event (e : Event) : bool :=
  match e with
  | Sleep PolicyPause _ => false
  | Report _ _ _ => false
  | _ => true
  end.

Definition is_send (e : Event) : bool :=
  match e with SendAttempt _ => true | _ => false end.

(** The number of send attempts in a trace. *)
Definition sends (t : list Event) : nat := length (List.filter is_send t).

(** [st'] is what [st] has become inside the attempt loop after [n] send
    attempts and before any handler wrote a row. *)
Record reached (n : nat) (st st' : State) : Prop := {
  reached_rows : rows st' = rows st;
  reached_last : last_successful_email st' = last_successful_email st;
  reached_time : last_send_time st' = last_send_time st;
  reached_count : sent_count st' = sent_count st \/ sent_count st' = 0%Z;
  reached_trace :
    exists added : list Event,
      trace st' = trace st ++ added
      /\ Forall (fun e => is_attempt_event e = true) added
      /\ sends added = n
}.

Definition is_policy_pause (e : Event) : bool :=
  match e with Sleep PolicyPause _ => true | _ => false end.

(** The number of policy-violation pauses in a trace. *)
Definition policy_pauses (t : list Event) : nat :=
  length (List.filter is_policy_pause t).

(** The state the handlers of attempt [attempt] start from: [st] after the
    rate limiter, with the send logged. *)
Definition at_send (cfg : RateLimit) (world : World) (i : nat) (r : Recipient)
           (attempt : nat) (st : State) : State :=
  log (SendAttempt (email r)) (_rate_limit cfg (clock_rate_limit world i attempt) st).
Arguments at_send : simpl never.

(** The statuses of the results file. *)
Definition statuses : list string :=
  ["success"; "skipped_blacklist"; "skipped"; "skipped_policy_violation"; "failed"].

(** ** Concrete inputs *)

Definition cfg0 : RateLimit :=
  {| emails_per_batch := 50; batch_delay := 60; delay_between_emails := 2 |}.

(** A world with a standing clock and reconnects that always succeed. *)
Definition steady (o : nat -> nat -> SendOutcome) : World :=
  {| clock_rate_limit := fun _ _ => 100%Q;
     send_message := o;
     clock_sent := fun _ _ => 100%Q;
     reconnect := fun _ _ => None |}.

Definition to (a : string) : Recipient := {| email := Some a |}.

Definition always (o : SendOutcome) : nat -> nat -> SendOutcome := fun _ _ => o.

(** A setup in which everything before the loop succeeds. *)
Definition ready (blacklist : string) (recipients : list Recipient) : Setup :=
  {| blacklist_file := Content blacklist;
     smtp_test := None;
     template_file := None;
     recipients_file := Ok recipients;
     session_open := None |}.

Definition nl : string := String Csv.LF EmptyString.

(** ** Vocabulary of the results file *)

(** A row written for the recipient [r]: its address as the file gives it
    (trimmed on the suppression path), and one of the five statuses. *)
Definition row_for (r : Recipient) (row : OutcomeRecord) : Prop :=
  (address row = email_cell r \/ address row = Py.strip (email_cell r))
  /\ In (status row) statuses.

(** How often an address occurs in the first column of the results. *)
Definition occurrences (a : string) (out : list OutcomeRecord) : nat :=
  length (List.filter (fun row => String.eqb (address row) a) out).

Definition lost : SendOutcome := ServerDisconnected "Connection unexpectedly closed".

(** The first attempt loses the connection, the second ends as [o]. *)
Definition second_try (o : SendOutcome) : nat -> nat -> SendOutcome :=
  fun _ attempt => match attempt with O => lost | _ => o end.

Definition ann : Recipient := to "ann@x.org".
Definition bob : Recipient := to "bob@x.org".

(** An entry of the set: not empty, lowercase, trimmed. *)
Definition clean (x : string) : Prop :=
  x <> EmptyString /\ Py.lower x = x /\ Py.strip x = x.

(** Every way out of the loop body but the retry sets a flag, returns,
    raises, or happens with [stop_on_error] unset. *)
Definition settled (stop : bool) (res : State * Flags * LoopExit) : Prop :=
  match res with
  | (_, fl, Break) =>
      negb (email_sent_successfully fl) && stop && negb (non_fatal_skip fl) = false
  | (_, _, NextAttempt) => False
  | _ => True
  end.

(** What one iteration of the attempt loop may do to the rows. *)
Inductive body_rows (r : Recipient) (a : nat) (st st' : State) : LoopExit -> Prop :=
| rows_retry : a < retries - 1 -> rows st' = rows st -> body_rows r a st st' NextAttempt
| rows_raise e : rows st' = rows st -> body_rows r a st st' (RaiseNow e)
| rows_break row :
    rows st' = rows st ++ [row] -> row_for r row -> body_rows r a st st' Break
| rows_return row :
    rows st' = rows st ++ [row] -> row_for r row -> body_rows r a st st' ReturnNow.

(** ** Tactics for the concrete runs *)

(** [retried world i k] for a concrete world and [k]. *)
Ltac retried_by_cases :=
  let j := fresh "j" in
  let Hj := fresh "Hj" in
  intros j Hj;
  unfold retries in Hj;
  do 3 (destruct j as [|j]; [first [exfalso; lia | split; reflexivity]|]);
  exfalso; lia.

Ltac not_suppressed_in_empty := unfold suppressed; apply not_elem_of_empty.

(** ** Vocabulary of the further properties *)

Definition is_reconnect (e : Event) : bool :=
  match e with Reconnect => true | _ => false end.

(** The number of reconnects in a trace. *)
Definition reconnects (t : list Event) : nat := length (List.filter is_reconnect t).

Definition is_cooldown (e : Event) : bool :=
  match e with Sleep BatchCooldown _ => true | _ => false end.

(** The number of one-second sleeps of batch pauses in a trace. *)
Definition cooldowns (t : list Event) : nat := length (List.filter is_cooldown t).

Definition is_retries_report (e : Event) : bool :=
  match e with Report StoppedAfterRetries _ _ => true | _ => false end.

(** A sleep of the rate limiter, of a positive duration. *)
Definition positive_wait (e : Event) : Prop :=
  match e with
  | Sleep BatchCooldown d => (0 < d)%Q
  | Sleep Spacing d => (0 < d)%Q
  | _ => False
  end.

(** What the handlers of one attempt add to the trace after the send, by
    the way the attempt ends. *)
Inductive handler_tail : LoopExit -> list Event -> Prop :=
| tail_retry : handler_tail NextAttempt [Sleep ReconnectDelay 5; Reconnect]
| tail_reconnect_failed e : handler_tail (RaiseNow e) [Sleep ReconnectDelay 5]
| tail_raise e : handler_tail (RaiseNow e) []
| tail_break : handler_tail Break []
| tail_pause : handler_tail Break [Sleep PolicyPause 600]
| tail_stop addr sent : handler_tail ReturnNow [Report StoppedOnError addr sent].

(** The batch counter is within its range: never negative, and never above
    the batch size (or 1, for a batch size below 1). *)
Definition counter_in_range (cfg : RateLimit) (st : State) : Prop :=
  (0 <= sent_count st <= Z.max (emails_per_batch cfg) 1)%Z.

(** A sleep of the rate limiter. *)
Definition is_rate_wait (e : Event) : bool :=
  match e with
  | Sleep BatchCooldown _ => true
  | Sleep Spacing _ => true
  | _ => false
  end.

(** The bounds one recipient's events keep: at most [n] sends, fewer
    reconnects than that, at most one policy pause, and never the report of
    the check after the loop. *)
Record bounded_events (n : nat) (added : list Event) : Prop := {
  bounded_sends : sends added <= n;
  bounded_reconnects : reconnects added <= n - 1;
  bounded_pauses : policy_pauses added <= 1;
  bounded_reports : Forall (fun e => is_retries_report e = false) added
}.

(** ** The recipient file, [_read_recipients] *)

(** A text file opened without [newline='']: CR LF and CR are read as LF. *)
Fixpoint translate_newlines (s : string) : string :=
  match s with
  | EmptyString => EmptyString
  | String c s' =>
      if Ascii.eqb c Csv.CR then
        match s' with
        | String c' s'' =>
            if Ascii.eqb c' Csv.LF
            then String Csv.LF (translate_newlines s'')
            else String Csv.LF (translate_newlines s')
        | EmptyString => String Csv.LF EmptyString
        end
      else String c (translate_newlines s')
  end.

(** The rows of the recipient file, one dictionary each; the errors of
    opening and reading the file are raised to the caller. *)
Definition _read_recipients (f : FileRead)
  : Result (list (gmap string (option string))) :=
  match f with
  | Missing msg => Raised (FileNotFoundError msg)
  | Unreadable msg => Raised (OtherException msg)
  | Content text =>
      match Csv.reader (translate_newlines text) with
      | None => Raised (OtherException "csv.Error")
      | Some rows => Ok (Csv.dict_reader rows)
      end
  end.

(** The recipient the engine sees in a row: [recipient.get('email')]. *)
Definition recipient_of_row (d : gmap string (option string)) : Recipient :=
  {| email := Csv.dict_get d "email" |}.

(** ** Vocabulary of the rows, one recipient at a time *)

(** The statuses the attempt loop writes. *)
Definition send_statuses : list string :=
  ["success"; "skipped"; "skipped_policy_violation"; "failed"].

(** A row the attempt loop writes for [r]: the address as the recipient
    file gives it, and a status of the loop. *)
Definition attempt_row (r : Recipient) (row : OutcomeRecord) : Prop :=
  address row = email_cell r /\ In (status row) send_statuses.

(** The row of the recipient [r] under the suppression set [bl]: the
    blacklist row with the trimmed address when [r] is suppressed, a row of
    the attempt loop otherwise. *)
Definition row_of (bl : gset string) (r : Recipient) (row : OutcomeRecord) : Prop :=
  (suppressed bl r
   /\ row = {| address := Py.strip (email_cell r);
               status := "skipped_blacklist";
               detail := "blacklisted" |})
  \/ (~ suppressed bl r /\ attempt_row r row).

(** How often [a] occurs in a list of addresses, surrounding whitespace
    apart. *)
Definition trimmed_occurrences (a : string) (l : list string) : nat :=
  length (List.filter (String.eqb (Py.strip a)) (map Py.strip l)).

(** ** Auxiliary facts *)

Lemma sends_app t1 t2 : sends (t1 ++ t2) = sends t1 + sends t2.
Proof. unfold sends. now rewrite List.filter_app, length_app. Qed.

Lemma reached_refl st : reached 0 st st.
Proof.
  split; auto. exists []. rewrite app_nil_r. auto.
Qed.

Lemma reached_log n st st' e :
  is_attempt_event e = true -> reached n st st' ->
  reached (n + sends [e]) st (log e st').
Proof.
  intros He [Hr Hl Ht Hc [added [Ha [Hf Hn]]]].
  split; simpl; auto.
  exists (added ++ [e]). split; [|split].
  - rewrite Ha, app_assoc. reflexivity.
  - apply Forall_app. split; auto.
  - rewrite sends_app. now rewrite Hn.
Qed.

Lemma countdown_events d : Forall (fun e => is_attempt_event e = true) (countdown d).
Proof.
  unfold countdown. induction (Z.to_nat d); simpl; constructor; auto.
Qed.

Lemma countdown_sends d : sends (countdown d) = 0.
Proof.
  unfold countdown, sends. induction (Z.to_nat d); simpl; auto.
Qed.

Lemma reached_rate_limit cfg now n st st' :
  reached n st st' -> reached n st (_rate_limit cfg now st').
Proof.
  intros [Hr Hl Ht Hc [added [Ha [Hf Hn]]]].
  unfold _rate_limit.
  destruct (emails_per_batch cfg <=? sent_count st')%Z.
  - split; simpl; auto.
    exists (added ++ countdown (batch_delay cfg)). split; [|split].
    + rewrite Ha, app_assoc. reflexivity.
    + apply Forall_app. split; auto using countdown_events.
    + rewrite sends_app, countdown_sends. lia.
  - destruct (Qltb _ _).
    + replace n with (n + sends [Sleep Spacing
        (delay_between_emails cfg - (now - last_send_time st'))%Q]) by (unfold sends; simpl; lia).
      apply reached_log; [reflexivity|]. split; eauto.
    + split; eauto.
Qed.

Lemma reached_trans n1 n2 st1 st2 st3 :
  reached n1 st1 st2 -> reached n2 st2 st3 -> reached (n1 + n2) st1 st3.
Proof.
  intros [Hr Hl Ht Hc [a1 [Ha1 [Hf1 Hn1]]]] [Hr' Hl' Ht' Hc' [a2 [Ha2 [Hf2 Hn2]]]].
  split; try congruence.
  - destruct Hc' as [Hc'|Hc']; [rewrite Hc'; exact Hc | now right].
  - exists (a1 ++ a2). split; [|split].
    + rewrite Ha2, Ha1, app_assoc. reflexivity.
    + apply Forall_app. split; auto.
    + rewrite sends_app. lia.
Qed.

Section EngineFacts.

Variable cfg : RateLimit.
Variable world : World.
Variable blacklist_emails : gset string.
Variable stop_on_error : bool.

Lemma reached_at_send i r a n st st' :
  reached n st st' -> reached (S n) st (at_send cfg world i r a st').
Proof.
  intros H.
  replace (S n) with (n + sends [SendAttempt (email r)])
    by (unfold sends; simpl; lia).
  apply reached_log; [reflexivity|]. now apply reached_rate_limit.
Qed.

(** A disconnect with attempts left, followed by a good reconnect, goes
    on with the next attempt and leaves the rows alone. *)
Lemma body_retry i r a st :
  is_disconnect (send_message world i a) = true ->
  reconnect world i a = None ->
  a < retries - 1 ->
  exists st',
    reached 1 st st'
    /\ attempt_body cfg world stop_on_error i r a st = (st', no_flags, NextAttempt).
Proof.
  intros Hd Hr Ha. unfold attempt_body.
  destruct (send_message world i a); try discriminate.
  unfold handle_disconnect.
  apply Nat.ltb_lt in Ha. rewrite Ha, Hr.
  eexists. split; [|reflexivity].
  change 1 with (1 + sends [Sleep ReconnectDelay 5] + sends [Reconnect]).
  do 2 (apply reached_log; [reflexivity|]).
  apply (reached_at_send i r a), reached_refl.
Qed.

(** After [k] retried attempts the loop stands before attempt [a + k]. *)
Lemma loop_retried i r : forall k n a st,
  (forall j, j < k ->
     is_disconnect (send_message world i (a + j)) = true
     /\ reconnect world i (a + j) = None) ->
  a + k <= retries - 1 ->
  exists st',
    reached k st st'
    /\ attempt_loop cfg world stop_on_error i r (k + n) a st
       = attempt_loop cfg world stop_on_error i r n (a + k) st'.
Proof.
  induction k as [|k IH]; intros n a st Hk Hle.
  - exists st. split; [apply reached_refl|]. now rewrite Nat.add_0_r.
  - destruct (Hk 0) as [Hd Hr]; [lia|]. rewrite Nat.add_0_r in Hd, Hr.
    destruct (body_retry i r a st Hd Hr) as [st1 [Hreach Hbody]]; [lia|].
    destruct (IH n (S a) st1) as [st2 [Hreach2 Hloop]].
    + intros j Hj. replace (S a + j) with (a + S j) by lia. apply Hk. lia.
    + lia.
    + exists st2. split; [apply (reached_trans 1 k st st1 st2); auto|].
      cbn [Nat.add attempt_loop].
      rewrite Hbody. rewrite Hloop. f_equal. lia.
Qed.

(** The loop of [retries] attempts, after [k] retried ones, is decided by
    attempt [k] unless that one is retried too. *)
Lemma loop_decided i r k st :
  k < retries -> retried world i k ->
  exists st', reached k st st' /\
    attempt_loop cfg world stop_on_error i r retries 0 st =
      match attempt_body cfg world stop_on_error i r k st' with
      | (st'', _, NextAttempt) =>
          attempt_loop cfg world stop_on_error i r (retries - S k) (S k) st''
      | res => res
      end.
Proof.
  intros Hk Hret.
  destruct (loop_retried i r k (retries - k) 0 st) as [st' [Hreach Hloop]].
  - intros j Hj. apply Hret. exact Hj.
  - lia.
  - exists st'. split; [exact Hreach|].
    replace (k + (retries - k)) with retries in Hloop by lia.
    rewrite Hloop. simpl (0 + k).
    replace (retries - k) with (S (retries - S k)) by lia.
    reflexivity.
Qed.

End EngineFacts.

(** The body of the loop, with the state its handlers start from named. *)
Lemma attempt_body_eq cfg world stop i r a st :
  attempt_body cfg world stop i r a st =
    match send_message world i a with
    | Delivered =>
        (record_success (clock_sent world i a) r
           (writerow (outcome_row r "success" EmptyString) (at_send cfg world i r a st)),
         sent_flag, Break)
    | ServerDisconnected msg =>
        handle_disconnect world i a msg (at_send cfg world i r a st)
    | RecipientsRefused info =>
        handle_rejection stop r (fst (refused_code_message info))
          (snd (refused_code_message info)) (at_send cfg world i r a st)
    | DataError code msg => handle_rejection stop r code msg (at_send cfg world i r a st)
    | OtherFailure msg => handle_exception stop r msg (at_send cfg world i r a st)
    end.
Proof. reflexivity. Qed.

Lemma not_suppressed bl r :
  ~ suppressed bl r ->
  bool_decide (Py.lower (Py.strip (email_cell r)) ∈ bl) = false.
Proof. intros H. now apply bool_decide_eq_false_2. Qed.

(** A recipient that is not suppressed is decided by the first attempt
    that is not retried; [st1] is the state that attempt's handler gets. *)
Lemma process_decided cfg world bl stop i r k st :
  ~ suppressed bl r -> k < retries -> retried world i k ->
  exists st0, reached (S k) st (at_send cfg world i r k st0) /\
    process_recipient cfg world bl stop i r st =
      match
        match attempt_body cfg world stop i r k st0 with
        | (st'', _, NextAttempt) =>
            attempt_loop cfg world stop i r (retries - S k) (S k) st''
        | res => res
        end
      with
      | (st', _, RaiseNow e) => (st', Raise e)
      | (st', _, ReturnNow) => (st', Return)
      | (st', flags, _) =>
          if negb (email_sent_successfully flags) && stop && negb (non_fatal_skip flags)
          then (stop_report StoppedAfterRetries st', Return)
          else (st', Continue)
      end.
Proof.
  intros Hns Hk Hret.
  destruct (loop_decided cfg world stop i r k st Hk Hret) as [st0 [Hreach Hloop]].
  exists st0. split; [now apply reached_at_send|].
  unfold process_recipient. rewrite (not_suppressed _ _ Hns), Hloop. reflexivity.
Qed.

Lemma dispatch_continue cfg world bl stop i r rest st st' :
  process_recipient cfg world bl stop i r st = (st', Continue) ->
  dispatch cfg world bl stop i (r :: rest) st = dispatch cfg world bl stop (S i) rest st'.
Proof. intros H. simpl. now rewrite H. Qed.

Lemma dispatch_return cfg world bl stop i r rest st st' :
  process_recipient cfg world bl stop i r st = (st', Return) ->
  dispatch cfg world bl stop i (r :: rest) st = (st', Return).
Proof. intros H. simpl. now rewrite H. Qed.

Lemma dispatch_raise cfg world bl stop i r rest st st' e :
  process_recipient cfg world bl stop i r st = (st', Raise e) ->
  dispatch cfg world bl stop i (r :: rest) st = (st', Raise e).
Proof. intros H. simpl. now rewrite H. Qed.

(** ** The suppression check *)

(** C5. A recipient whose trimmed, lowercased address is in the suppression
    set gets exactly one row, [skipped_blacklist]; nothing is added to the
    trace (no send attempt, no rate-limit wait, no other sleep), the three
    run counters keep their values, and the loop goes on with the next
    recipient. *)
Theorem suppressed_recipient_skipped cfg world bl stop i r rest st :
  suppressed bl r ->
  exists st',
    process_recipient cfg world bl stop i r st = (st', Continue)
    /\ rows st' = rows st ++ [ {| address := Py.strip (email_cell r);
                                  status := "skipped_blacklist";
                                  detail := "blacklisted" |} ]
    /\ trace st' = trace st
    /\ sent_count st' = sent_count st
    /\ last_send_time st' = last_send_time st
    /\ last_successful_email st' = last_successful_email st
    /\ dispatch cfg world bl stop i (r :: rest) st
       = dispatch cfg world bl stop (S i) rest st'.
Proof.
  intros Hs. eexists.
  assert (Hp : process_recipient cfg world bl stop i r st =
               (writerow {| address := Py.strip (email_cell r);
                            status := "skipped_blacklist";
                            detail := "blacklisted" |} st, Continue)).
  { unfold process_recipient. now rewrite (bool_decide_eq_true_2 _ Hs). }
  split; [exact Hp|]. repeat split. now apply dispatch_continue.
Qed.

(** ** Rejections with the code 556 *)

Lemma policy_pauses_app t1 t2 :
  policy_pauses (t1 ++ t2) = policy_pauses t1 + policy_pauses t2.
Proof. unfold policy_pauses. now rewrite List.filter_app, length_app. Qed.

Lemma attempt_events_no_pause added :
  Forall (fun e => is_attempt_event e = true) added -> policy_pauses added = 0.
Proof.
  induction 1 as [|e l He _ IH]; [reflexivity|].
  change (e :: l) with ([e] ++ l). rewrite policy_pauses_app, IH.
  destruct e as [[] q| | |]; try discriminate; reflexivity.
Qed.

(** The typed handlers test the code first. *)
Lemma handle_rejection_556 stop r code message st :
  Py.code_is code 556 = true ->
  handle_rejection stop r code message st =
    (writerow (outcome_row r "skipped" (code_message code message)) st,
     skip_flag, Break).
Proof. intros H. unfold handle_rejection. now rewrite H. Qed.

Lemma body_rejection cfg world stop i r a st code message :
  rejection (send_message world i a) = Some (code, message) ->
  attempt_body cfg world stop i r a st =
    handle_rejection stop r code message (at_send cfg world i r a st).
Proof.
  intros H. rewrite attempt_body_eq.
  destruct (send_message world i a) as [|m|info|c m|m]; simpl in H;
    try discriminate.
  - destruct (refused_code_message info). simpl. congruence.
  - congruence.
Qed.

Lemma skipped_when_556 cfg world bl stop i r st k code message :
  ~ suppressed bl r -> k < retries -> retried world i k ->
  rejection (send_message world i k) = Some (code, message) ->
  Py.code_is code 556 = true ->
  exists st0,
    reached (S k) st (at_send cfg world i r k st0)
    /\ process_recipient cfg world bl stop i r st =
         (writerow (outcome_row r "skipped" (code_message code message))
            (at_send cfg world i r k st0), Continue).
Proof.
  intros Hns Hk Hret Hrej H556.
  destruct (process_decided cfg world bl stop i r k st Hns Hk Hret)
    as [st0 [Hreach Hp]].
  exists st0. split; [exact Hreach|].
  rewrite Hp, (body_rejection _ _ _ _ _ _ _ _ _ Hrej), handle_rejection_556 by exact H556.
  simpl. now rewrite andb_false_r.
Qed.

Lemma has_code_556_rejection o :
  has_code_556 o = true ->
  exists code message, rejection o = Some (code, message) /\ Py.code_is code 556 = true.
Proof.
  unfold has_code_556. destruct (rejection o) as [[code message]|]; [|discriminate].
  intros H. now exists code, message.
Qed.

(** C4. When the attempt that decides a recipient (the first one that is
    not a retried disconnect) is a rejection whose extracted code is 556,
    the recipient gets one row, [skipped]; the attempt loop stops there
    (that attempt's send was the last), nothing but attempt events was
    traced (no abort report, no pause), and whatever [stop_on_error] says
    the loop goes on with the next recipient. *)
Theorem invalid_domain_skipped cfg world bl stop i r rest st k :
  ~ suppressed bl r -> k < retries -> retried world i k ->
  has_code_556 (send_message world i k) = true ->
  exists st',
    process_recipient cfg world bl stop i r st = (st', Continue)
    /\ rows st' = rows st ++ [outcome_row r "skipped"
                                (failure_detail (send_message world i k))]
    /\ (exists added, trace st' = trace st ++ added
                      /\ Forall (fun e => is_attempt_event e = true) added
                      /\ sends added = S k)
    /\ dispatch cfg world bl stop i (r :: rest) st
       = dispatch cfg world bl stop (S i) rest st'.
Proof.
  intros Hns Hk Hret H556.
  destruct (has_code_556_rejection _ H556) as [code [message [Hrej Hc]]].
  destruct (skipped_when_556 cfg world bl stop i r st k code message)
    as [st0 [Hreach Hproc]]; auto.
  eexists. split; [exact Hproc|]. split; [|split].
  - cbn [rows writerow]. rewrite (reached_rows _ _ _ Hreach).
    unfold failure_detail. now rewrite Hrej.
  - exact (reached_trace _ _ _ Hreach).
  - now apply dispatch_continue.
Qed.

(** C10. A rejection that carries the code 556 and whose message contains
    [policy violation] (in any case) is handled by the code test, which both
    typed handlers make first: the handler writes [skipped] and leaves the
    loop, the recipient's only row is that one, and no policy-violation
    pause is added to the trace. *)
Theorem code_556_before_policy_text cfg world bl stop i r st k code message :
  ~ suppressed bl r -> k < retries -> retried world i k ->
  rejection (send_message world i k) = Some (code, message) ->
  Py.code_is code 556 = true ->
  Py.contains "policy violation" (Py.lower message) = true ->
  (forall st0, attempt_body cfg world stop i r k st0 =
     (writerow (outcome_row r "skipped" (code_message code message))
        (at_send cfg world i r k st0), skip_flag, Break))
  /\ exists st',
       process_recipient cfg world bl stop i r st = (st', Continue)
       /\ rows st' = rows st ++ [outcome_row r "skipped" (code_message code message)]
       /\ policy_pauses (trace st') = policy_pauses (trace st).
Proof.
  intros Hns Hk Hret Hrej H556 _. split.
  - intros st0. rewrite (body_rejection _ _ _ _ _ _ _ _ _ Hrej).
    now apply handle_rejection_556.
  - destruct (skipped_when_556 cfg world bl stop i r st k code message)
      as [st0 [Hreach Hproc]]; auto.
    eexists. split; [exact Hproc|]. split.
    + cbn [rows writerow]. now rewrite (reached_rows _ _ _ Hreach).
    + cbn [trace writerow].
      destruct (reached_trace _ _ _ Hreach) as [added [Ha [Hf _]]].
      rewrite Ha, policy_pauses_app, (attempt_events_no_pause _ Hf). lia.
Qed.

(** ** Failures that are classified by their text, or not at all *)

Lemma body_policy_text cfg world stop i r a st :
  is_disconnect (send_message world i a) = false ->
  has_code_556 (send_message world i a) = false ->
  has_policy_text (send_message world i a) = true ->
  attempt_body cfg world stop i r a st =
    (log (Sleep PolicyPause 600)
       (writerow (outcome_row r "skipped_policy_violation"
                    (failure_detail (send_message world i a)))
          (at_send cfg world i r a st)),
     skip_flag, Break).
Proof.
  intros Hd H556 Hp. rewrite attempt_body_eq.
  unfold has_code_556, has_policy_text, failure_detail in *.
  destruct (send_message world i a) as [|m|info|code m|m]; simpl in *;
    try discriminate.
  - destruct (refused_code_message info) as [code message]. simpl in *.
    unfold handle_rejection. now rewrite H556, Hp.
  - unfold handle_rejection. now rewrite H556, Hp.
  - unfold handle_exception. now rewrite Hp.
Qed.

Lemma body_unclassified cfg world stop i r a st :
  unclassified (send_message world i a) = true ->
  attempt_body cfg world stop i r a st =
    let st1 := writerow (outcome_row r "failed"
                           (failure_detail (send_message world i a)))
                 (at_send cfg world i r a st) in
    if stop then (stop_report StoppedOnError st1, no_flags, ReturnNow)
    else (st1, no_flags, Break).
Proof.
  intros Hu. rewrite attempt_body_eq.
  unfold unclassified, has_code_556, has_policy_text, failure_detail in *.
  destruct (send_message world i a) as [|m|info|code m|m]; simpl in *;
    try discriminate.
  - destruct (refused_code_message info) as [code message]. simpl in *.
    apply andb_prop in Hu. destruct Hu as [H556 Hp].
    apply negb_true_iff in H556, Hp.
    unfold handle_rejection. now rewrite H556, Hp.
  - apply andb_prop in Hu. destruct Hu as [H556 Hp].
    apply negb_true_iff in H556, Hp.
    unfold handle_rejection. now rewrite H556, Hp.
  - apply negb_true_iff in Hu.
    unfold handle_exception. now rewrite Hu.
Qed.

Lemma body_last_disconnect cfg world stop i r st msg :
  send_message world i (retries - 1) = ServerDisconnected msg ->
  attempt_body cfg world stop i r (retries - 1) st =
    (at_send cfg world i r (retries - 1) st, no_flags,
     RaiseNow (SMTPServerDisconnected msg)).
Proof.
  intros H. rewrite attempt_body_eq, H. reflexivity.
Qed.

(** C2, as the code has it. When the attempt that decides a recipient fails
    with a message containing [policy violation] (in any case), is not a
    disconnect and carries no code 556, the recipient gets the row
    [skipped_policy_violation], the engine then sleeps 600 seconds, and the
    loop goes on with the next recipient whatever [stop_on_error] says: the
    text is tested before a failure is written. *)
Theorem policy_violation_paused cfg world bl stop i r rest st k :
  ~ suppressed bl r -> k < retries -> retried world i k ->
  is_disconnect (send_message world i k) = false ->
  has_code_556 (send_message world i k) = false ->
  has_policy_text (send_message world i k) = true ->
  exists st',
    process_recipient cfg world bl stop i r st = (st', Continue)
    /\ rows st' = rows st ++ [outcome_row r "skipped_policy_violation"
                                (failure_detail (send_message world i k))]
    /\ (exists added, trace st' = trace st ++ added ++ [Sleep PolicyPause 600]
                      /\ Forall (fun e => is_attempt_event e = true) added
                      /\ sends added = S k)
    /\ dispatch cfg world bl stop i (r :: rest) st
       = dispatch cfg world bl stop (S i) rest st'.
Proof.
  intros Hns Hk Hret Hd H556 Hp.
  destruct (process_decided cfg world bl stop i r k st Hns Hk Hret)
    as [st0 [Hreach Hproc]].
  rewrite (body_policy_text cfg world stop i r k st0 Hd H556 Hp) in Hproc.
  simpl in Hproc. rewrite andb_false_r in Hproc.
  eexists. split; [exact Hproc|]. split; [|split].
  - cbn [rows writerow log]. now rewrite (reached_rows _ _ _ Hreach).
  - cbn [trace writerow log].
    destruct (reached_trace _ _ _ Hreach) as [added [Ha [Hf Hn]]].
    exists added. rewrite Ha, app_assoc. auto.
  - now apply dispatch_continue.
Qed.

(** C3. When the attempt that decides a recipient fails without any
    classification (no disconnect, no code 556, no policy-violation text),
    the recipient gets the row [failed]. With [stop_on_error] set the run
    stops there, after the stop report (last successful address, sent
    count): the loop returns and no later recipient gets a row. Without it
    the loop goes on with the next recipient. *)
Theorem unclassified_failure_stops_or_continues
        cfg world bl (stop : bool) i r rest st k :
  ~ suppressed bl r -> k < retries -> retried world i k ->
  unclassified (send_message world i k) = true ->
  exists st',
    rows st' = rows st ++ [outcome_row r "failed"
                             (failure_detail (send_message world i k))]
    /\ if stop
       then process_recipient cfg world bl stop i r st = (st', Return)
            /\ dispatch cfg world bl stop i (r :: rest) st = (st', Return)
            /\ (exists pre : list Event,
                  trace st' = pre ++ [Report StoppedOnError
                                        (last_successful_email st) (sent_count st')])
       else process_recipient cfg world bl stop i r st = (st', Continue)
            /\ dispatch cfg world bl stop i (r :: rest) st
               = dispatch cfg world bl stop (S i) rest st'.
Proof.
  intros Hns Hk Hret Hu.
  destruct (process_decided cfg world bl stop i r k st Hns Hk Hret)
    as [st0 [Hreach Hproc]].
  rewrite (body_unclassified cfg world stop i r k st0 Hu) in Hproc.
  destruct stop; simpl in Hproc.
  - eexists. split; [|split; [exact Hproc|split]].
    + cbn [rows writerow stop_report log]. now rewrite (reached_rows _ _ _ Hreach).
    + now apply dispatch_return.
    + cbn [trace stop_report log writerow last_successful_email sent_count].
      rewrite (reached_last _ _ _ Hreach). eauto.
  - eexists. split; [|split; [exact Hproc|]].
    + cbn [rows writerow]. now rewrite (reached_rows _ _ _ Hreach).
    + now apply dispatch_continue.
Qed.

(** What the code does with an exhausted disconnect, for every world (the
    check of lines 364-370, which is gated on [stop_on_error], is never
    reached). A disconnect on the last attempt, after the earlier ones
    were retried, is raised again from its handler and leaves the attempt
    loop and the loop over the recipients, whatever [stop_on_error] says:
    no text test is made, no row is written for the
    recipient or for any later one, the last successful address and the
    time of the last send keep their values, all [retries] sends were
    attempted, and the run ends with the fatal-error report (last
    successful address, sent count) and the exception raised to the
    caller. *)
Theorem exhausted_disconnect_propagates cfg world bl stop i r rest st msg :
  ~ suppressed bl r -> retried world i (retries - 1) ->
  send_message world i (retries - 1) = ServerDisconnected msg ->
  exists st',
    process_recipient cfg world bl stop i r st = (st', Raise (SMTPServerDisconnected msg))
    /\ rows st' = rows st
    /\ last_successful_email st' = last_successful_email st
    /\ last_send_time st' = last_send_time st
    /\ (exists added, trace st' = trace st ++ added
                      /\ Forall (fun e => is_attempt_event e = true) added
                      /\ sends added = retries)
    /\ close_run (dispatch cfg world bl stop i (r :: rest) st)
       = {| outcome := Propagated (SMTPServerDisconnected msg);
            results_file := Some (rows st);
            final := log (Report FatalError (last_successful_email st) (sent_count st')) st' |}.
Proof.
  intros Hns Hret Hsend.
  destruct (process_decided cfg world bl stop i r (retries - 1) st Hns) as [st0 [Hreach Hproc]];
    [unfold retries; lia | exact Hret |].
  rewrite (body_last_disconnect cfg world stop i r st0 msg Hsend) in Hproc.
  eexists. split; [exact Hproc|].
  destruct Hreach as [Hrows Hlast Htime _ Htrace].
  repeat (split; [assumption|]).
  rewrite (dispatch_raise _ _ _ _ _ _ _ _ _ _ Hproc).
  unfold close_run, with_file, stop_report. cbn [rows log].
  now rewrite Hrows, Hlast.
Qed.

(** ** The rate limiter *)

Lemma Qltb_lt x y : Qltb x y = true <-> (x < y)%Q.
Proof.
  unfold Qltb. rewrite negb_true_iff. split.
  - intros H. apply Qnot_le_lt. intros Hle.
    apply Qle_bool_iff in Hle. congruence.
  - intros H. destruct (Qle_bool y x) eqn:E; [|reflexivity].
    apply Qle_bool_iff in E. exfalso. eapply Qlt_not_le; eauto.
Qed.

Lemma countdown_ones d : Forall (fun e => e = Sleep BatchCooldown 1) (countdown d).
Proof.
  unfold countdown. induction (Z.to_nat d); simpl; constructor; auto.
Qed.

Lemma countdown_length d : (0 <= d)%Z -> Z.of_nat (length (countdown d)) = d.
Proof.
  intros H. unfold countdown. rewrite repeat_length. lia.
Qed.

Lemma rate_limit_batch cfg now st :
  (emails_per_batch cfg <= sent_count st)%Z ->
  _rate_limit cfg now st = reset_sent_count (log_all (countdown (batch_delay cfg)) st).
Proof.
  intros H. unfold _rate_limit. apply Z.leb_le in H. now rewrite H.
Qed.

Lemma rate_limit_spacing cfg now st :
  (sent_count st < emails_per_batch cfg)%Z ->
  _rate_limit cfg now st =
    if Qltb (now - last_send_time st) (delay_between_emails cfg)
    then log (Sleep Spacing (delay_between_emails cfg - (now - last_send_time st))) st
    else st.
Proof.
  intros H. unfold _rate_limit. apply Z.leb_gt in H. now rewrite H.
Qed.

Lemma handle_rejection_count stop r code message st :
  sent_count (fst (fst (handle_rejection stop r code message st))) = sent_count st.
Proof.
  unfold handle_rejection.
  destruct (Py.code_is code 556); [reflexivity|].
  destruct (Py.contains _ _); [reflexivity|].
  destruct stop; reflexivity.
Qed.

Lemma handle_exception_count stop r msg st :
  sent_count (fst (fst (handle_exception stop r msg st))) = sent_count st.
Proof.
  unfold handle_exception.
  destruct (Py.contains _ _); [reflexivity|].
  destruct stop; reflexivity.
Qed.

Lemma handle_disconnect_count world i a msg st :
  sent_count (fst (fst (handle_disconnect world i a msg st))) = sent_count st.
Proof.
  unfold handle_disconnect.
  destruct (Nat.ltb a (retries - 1)); [|reflexivity].
  destruct (reconnect world i a); reflexivity.
Qed.

Lemma handle_rejection_trace stop r code message st :
  exists rest,
    trace (fst (fst (handle_rejection stop r code message st))) = trace st ++ rest.
Proof.
  unfold handle_rejection.
  destruct (Py.code_is code 556); [exists []; cbn; now rewrite app_nil_r|].
  destruct (Py.contains _ _); [eexists; reflexivity|].
  destruct stop; [eexists; reflexivity | exists []; cbn; now rewrite app_nil_r].
Qed.

Lemma handle_exception_trace stop r msg st :
  exists rest,
    trace (fst (fst (handle_exception stop r msg st))) = trace st ++ rest.
Proof.
  unfold handle_exception.
  destruct (Py.contains _ _); [eexists; reflexivity|].
  destruct stop; [eexists; reflexivity | exists []; cbn; now rewrite app_nil_r].
Qed.

Lemma handle_disconnect_trace world i a msg st :
  exists rest,
    trace (fst (fst (handle_disconnect world i a msg st))) = trace st ++ rest.
Proof.
  unfold handle_disconnect.
  destruct (Nat.ltb a (retries - 1)); [|exists []; cbn; now rewrite app_nil_r].
  destruct (reconnect world i a); cbn; [eexists; reflexivity|].
  rewrite <- app_assoc. eexists; reflexivity.
Qed.

(** C6. One call of the rate limiter applies exactly one of two rules, the
    batch rule first. With [sent_count >= emails_per_batch] it sleeps
    [batch_delay] times one second (for a delay that is not negative), and
    nothing else, and leaves [sent_count] at 0. Otherwise it keeps
    [sent_count] and, when less than [delay_between_emails] has passed
    since [last_send_time], sleeps the difference once; else it does not
    sleep. Every attempt calls the rate limiter before it sends, and after
    that call changes [sent_count] only by adding one, so the counter never
    decreases except by the reset that ends a batch pause. *)
Theorem rate_limit_rules cfg now st :
  ((emails_per_batch cfg <= sent_count st)%Z ->
   (0 <= batch_delay cfg)%Z ->
   exists pause,
     trace (_rate_limit cfg now st) = trace st ++ pause
     /\ Forall (fun e => e = Sleep BatchCooldown 1) pause
     /\ Z.of_nat (length pause) = batch_delay cfg
     /\ sent_count (_rate_limit cfg now st) = 0%Z)
  /\ ((sent_count st < emails_per_batch cfg)%Z ->
      sent_count (_rate_limit cfg now st) = sent_count st
      /\ ((now - last_send_time st < delay_between_emails cfg)%Q ->
          trace (_rate_limit cfg now st) =
            trace st ++ [Sleep Spacing
                           (delay_between_emails cfg - (now - last_send_time st))])
      /\ (~ (now - last_send_time st < delay_between_emails cfg)%Q ->
          trace (_rate_limit cfg now st) = trace st))
  /\ (forall world stop i r a,
        let before := _rate_limit cfg (clock_rate_limit world i a) st in
        let after := fst (fst (attempt_body cfg world stop i r a st)) in
        (exists rest, trace after = trace before ++ SendAttempt (email r) :: rest)
        /\ (sent_count after = sent_count before
            \/ sent_count after = (sent_count before + 1)%Z)).
Proof.
  split; [|split].
  - intros Hb Hd. rewrite (rate_limit_batch _ _ _ Hb).
    exists (countdown (batch_delay cfg)). cbn [trace sent_count reset_sent_count log_all].
    auto using countdown_ones, countdown_length.
  - intros Hs. rewrite (rate_limit_spacing _ _ _ Hs).
    destruct (Qltb _ _) eqn:E.
    + split; [reflexivity|]. split; [reflexivity|].
      intros Hn. apply Qltb_lt in E. contradiction.
    + split; [reflexivity|]. split; [|reflexivity].
      intros Hl. apply Qltb_lt in Hl. congruence.
  - intros world stop i r a before after. subst before after.
    rewrite attempt_body_eq.
    assert (Hs : sent_count (at_send cfg world i r a st) =
                 sent_count (_rate_limit cfg (clock_rate_limit world i a) st))
      by reflexivity.
    assert (Ht : forall rest,
               trace (at_send cfg world i r a st) ++ rest =
               trace (_rate_limit cfg (clock_rate_limit world i a) st)
                 ++ SendAttempt (email r) :: rest).
    { intros rest. unfold at_send. cbn [trace log]. now rewrite <- app_assoc. }
    destruct (send_message world i a) as [|m|info|code m|m].
    + split; [|right; cbn [fst sent_count record_success writerow]; now rewrite Hs].
      exists []. cbn [fst trace record_success writerow]. now rewrite <- Ht, app_nil_r.
    + split; [|left; now rewrite handle_disconnect_count].
      destruct (handle_disconnect_trace world i a m (at_send cfg world i r a st))
        as [rest Hr]. exists rest. now rewrite Hr, Ht.
    + split; [|left; now rewrite handle_rejection_count].
      destruct (handle_rejection_trace stop r (fst (refused_code_message info))
                  (snd (refused_code_message info)) (at_send cfg world i r a st))
        as [rest Hr]. exists rest. now rewrite Hr, Ht.
    + split; [|left; now rewrite handle_rejection_count].
      destruct (handle_rejection_trace stop r code m (at_send cfg world i r a st))
        as [rest Hr]. exists rest. now rewrite Hr, Ht.
    + split; [|left; now rewrite handle_exception_count].
      destruct (handle_exception_trace stop r m (at_send cfg world i r a st))
        as [rest Hr]. exists rest. now rewrite Hr, Ht.
Qed.

(** ** Failures before the loop *)

(** C7, as the code has it. A failure to load the suppression file is
    caught by [send_newsletters], which returns normally, so that [main]
    reports success; a failure of the connection test (authentication,
    unreachable relay) leaves [send_newsletters] and [main] as an
    exception. In both cases no results file is created and the sender is
    left as it was: no row, no send attempt. *)
Theorem startup_failures cfg world env stop self :
  (forall e, _read_blacklist (blacklist_file env) = Raised e ->
     send_newsletters cfg world env stop self
       = {| outcome := BlacklistAbort; results_file := None; final := self |}
     /\ fst (main cfg world env) = CompletedSuccessfully)
  /\ (forall bl e, _read_blacklist (blacklist_file env) = Ok bl ->
        smtp_test env = Some e ->
        send_newsletters cfg world env stop self
          = {| outcome := Propagated e; results_file := None; final := self |}
        /\ fst (main cfg world env) = FailedWith e).
Proof.
  split.
  - intros e H. unfold main, send_newsletters. rewrite H. split; reflexivity.
  - intros bl e H Ht. unfold main, send_newsletters. rewrite H, Ht. split; reflexivity.
Qed.
(** ** The results file *)

Lemma outcome_row_for r st d : In st statuses -> row_for r (outcome_row r st d).
Proof. intros H. split; [left; reflexivity | exact H]. Qed.

Lemma handle_rejection_rows stop r a code message st0 st :
  rows st = rows st0 ->
  body_rows r a st0 (fst (fst (handle_rejection stop r code message st)))
            (snd (handle_rejection stop r code message st)).
Proof.
  intros Hr. unfold handle_rejection.
  destruct (Py.code_is code 556).
  { eapply rows_break; [cbn; now rewrite Hr|]. apply outcome_row_for. cbn. tauto. }
  destruct (Py.contains _ _).
  { eapply rows_break; [cbn; now rewrite Hr|]. apply outcome_row_for. cbn. tauto. }
  destruct stop.
  - eapply rows_return; [cbn; now rewrite Hr|]. apply outcome_row_for. cbn. tauto.
  - eapply rows_break; [cbn; now rewrite Hr|]. apply outcome_row_for. cbn. tauto.
Qed.

Lemma handle_exception_rows stop r a msg st0 st :
  rows st = rows st0 ->
  body_rows r a st0 (fst (fst (handle_exception stop r msg st)))
            (snd (handle_exception stop r msg st)).
Proof.
  intros Hr. unfold handle_exception.
  destruct (Py.contains _ _).
  { eapply rows_break; [cbn; now rewrite Hr|]. apply outcome_row_for. cbn. tauto. }
  destruct stop.
  - eapply rows_return; [cbn; now rewrite Hr|]. apply outcome_row_for. cbn. tauto.
  - eapply rows_break; [cbn; now rewrite Hr|]. apply outcome_row_for. cbn. tauto.
Qed.

Lemma handle_disconnect_rows world r i a msg st0 st :
  rows st = rows st0 ->
  body_rows r a st0 (fst (fst (handle_disconnect world i a msg st)))
            (snd (handle_disconnect world i a msg st)).
Proof.
  intros Hr. unfold handle_disconnect.
  destruct (Nat.ltb a (retries - 1)) eqn:E.
  - apply Nat.ltb_lt in E.
    destruct (reconnect world i a); cbn; [apply rows_raise | apply rows_retry]; auto.
  - cbn. now apply rows_raise.
Qed.

Lemma at_send_rows cfg world i r a st : rows (at_send cfg world i r a st) = rows st.
Proof.
  exact (reached_rows _ _ _ (reached_at_send cfg world i r a 0 st st (reached_refl st))).
Qed.

Lemma attempt_body_rows cfg world stop i r a st :
  body_rows r a st (fst (fst (attempt_body cfg world stop i r a st)))
            (snd (attempt_body cfg world stop i r a st)).
Proof.
  rewrite attempt_body_eq.
  pose proof (at_send_rows cfg world i r a st) as Hr.
  destruct (send_message world i a) as [|m|info|code m|m].
  - eapply rows_break; [cbn; now rewrite Hr|]. apply outcome_row_for. cbn. tauto.
  - now apply handle_disconnect_rows.
  - now apply handle_rejection_rows.
  - now apply handle_rejection_rows.
  - now apply handle_exception_rows.
Qed.

(** The attempt loop of a recipient writes one row, unless an exception
    leaves it, and then none; it never just runs out. *)
Lemma attempt_loop_rows cfg world stop i r : forall n a st,
  a + n = retries -> 0 < n ->
  match attempt_loop cfg world stop i r n a st with
  | (st', _, RaiseNow _) => rows st' = rows st
  | (st', _, NextAttempt) => False
  | (st', _, _) => exists row, rows st' = rows st ++ [row] /\ row_for r row
  end.
Proof.
  induction n as [|n IH]; intros a st Han Hn; [lia|].
  simpl.
  pose proof (attempt_body_rows cfg world stop i r a st) as Hb.
  destruct (attempt_body cfg world stop i r a st) as [[st1 fl] ex].
  cbn [fst snd] in Hb.
  inversion Hb as [Ha Hr Hex | e Hr Hex | row Hr Hrow Hex | row Hr Hrow Hex]; subst ex.
  - specialize (IH (S a) st1). rewrite Hr in IH. apply IH; lia.
  - exact Hr.
  - eauto.
  - eauto.
Qed.

Lemma process_recipient_rows cfg world bl stop i r st :
  match process_recipient cfg world bl stop i r st with
  | (st', Raise _) => rows st' = rows st
  | (st', _) => exists row, rows st' = rows st ++ [row] /\ row_for r row
  end.
Proof.
  unfold process_recipient.
  destruct (bool_decide _).
  { eexists. split; [reflexivity|]. split; [right; reflexivity | cbn; tauto]. }
  pose proof (attempt_loop_rows cfg world stop i r retries 0 st eq_refl) as Hl.
  destruct (attempt_loop cfg world stop i r retries 0 st) as [[st' fl] ex].
  specialize (Hl ltac:(unfold retries; lia)).
  destruct ex; try contradiction; auto.
  destruct (_ && _); exact Hl.
Qed.

(** The rows the loop over the recipients adds belong, one each and in
    order, to the recipients it got to. *)
Lemma dispatch_rows cfg world bl stop : forall recipients i st,
  exists out,
    rows (fst (dispatch cfg world bl stop i recipients st)) = rows st ++ out
    /\ length out <= length recipients
    /\ Forall2 row_for (take (length out) recipients) out.
Proof.
  induction recipients as [|r rest IH]; intros i st.
  - exists []. simpl. rewrite app_nil_r. repeat split; auto.
  - simpl.
    pose proof (process_recipient_rows cfg world bl stop i r st) as Hp.
    destruct (process_recipient cfg world bl stop i r st) as [st1 c].
    destruct c as [| |e].
    + destruct Hp as [row [Hr Hrow]].
      destruct (IH (S i) st1) as [out [Ho [Hlen Hf]]].
      exists (row :: out). rewrite Ho, Hr, <- app_assoc. simpl.
      repeat split; [lia|]. now constructor.
    + destruct Hp as [row [Hr Hrow]].
      exists [row]. simpl. repeat split; [exact Hr | lia |].
      constructor; [exact Hrow | constructor].
    + exists []. simpl. rewrite app_nil_r. repeat split; [exact Hp | lia | constructor].
Qed.

Lemma close_run_rows res : results_file (close_run res) = Some (rows (fst res)).
Proof. destruct res as [st [| |e]]; reflexivity. Qed.

(** The rows of the results file belong, one each and in order, to the
    first recipients of the recipient file: a recipient row gets at most
    one results row, which carries its address, as given or trimmed, and
    one of the five statuses. *)
Theorem results_follow_recipients cfg world env stop self recipients out :
  recipients_file env = Ok recipients ->
  results_file (send_newsletters cfg world env stop self) = Some out ->
  length out <= length recipients
  /\ Forall2 row_for (take (length out) recipients) out.
Proof.
  intros Hrec. unfold send_newsletters.
  destruct (_read_blacklist (blacklist_file env)) as [bl|e]; [|discriminate].
  destruct (smtp_test env); [discriminate|].
  destruct (template_file env); [discriminate|].
  rewrite Hrec.
  destruct (session_open env).
  - cbn. intros [= <-]. simpl. split; [lia | constructor].
  - rewrite close_run_rows. intros [= <-].
    destruct (dispatch_rows cfg world bl stop recipients 1 (open_results self))
      as [out [Ho [Hlen Hf]]].
    cbn [rows open_results] in Ho. simpl in Ho. rewrite Ho. auto.
Qed.

(** ** What the loader puts into the set *)

Lemma isspace_lower_char c : Py.isspace (Py.lower_char c) = Py.isspace c.
Proof. destruct c as [[] [] [] [] [] [] [] []]; reflexivity. Qed.

Lemma lower_char_idem c : Py.lower_char (Py.lower_char c) = Py.lower_char c.
Proof. destruct c as [[] [] [] [] [] [] [] []]; reflexivity. Qed.

Lemma lower_idem s : Py.lower (Py.lower s) = Py.lower s.
Proof.
  induction s as [|c s IH]; simpl; [reflexivity|].
  now rewrite lower_char_idem, IH.
Qed.

Lemma lower_lstrip s : Py.lower (Py.lstrip s) = Py.lstrip (Py.lower s).
Proof.
  induction s as [|c s IH]; simpl; [reflexivity|].
  rewrite isspace_lower_char. destruct (Py.isspace c); [exact IH | reflexivity].
Qed.

Lemma lower_rstrip s : Py.lower (Py.rstrip s) = Py.rstrip (Py.lower s).
Proof.
  induction s as [|c s IH]; simpl; [reflexivity|].
  rewrite <- IH, isspace_lower_char.
  destruct (Py.rstrip s); simpl; [destruct (Py.isspace c)|]; reflexivity.
Qed.

Lemma lower_strip s : Py.lower (Py.strip s) = Py.strip (Py.lower s).
Proof. unfold Py.strip. now rewrite lower_lstrip, lower_rstrip. Qed.

Lemma lstrip_idem s : Py.lstrip (Py.lstrip s) = Py.lstrip s.
Proof.
  induction s as [|c s IH]; simpl; [reflexivity|].
  destruct (Py.isspace c) eqn:E; [exact IH | simpl; now rewrite E].
Qed.

Lemma rstrip_idem s : Py.rstrip (Py.rstrip s) = Py.rstrip s.
Proof.
  induction s as [|c s IH]; simpl; [reflexivity|].
  destruct (Py.rstrip s) as [|c' t] eqn:E.
  - destruct (Py.isspace c) eqn:Ec; simpl; [reflexivity | now rewrite Ec].
  - change (Py.rstrip (String c (String c' t)))
      with (match Py.rstrip (String c' t) with
            | EmptyString => if Py.isspace c then EmptyString else String c EmptyString
            | u => String c u
            end).
    now rewrite IH.
Qed.

Lemma rstrip_lstrip s : Py.rstrip (Py.lstrip s) = Py.lstrip (Py.rstrip s).
Proof.
  induction s as [|c s IH]; [reflexivity|].
  simpl. destruct (Py.isspace c) eqn:Ec.
  - rewrite IH. destruct (Py.rstrip s); simpl; [reflexivity | now rewrite Ec].
  - simpl. destruct (Py.rstrip s); simpl; now rewrite Ec.
Qed.

Lemma strip_idem s : Py.strip (Py.strip s) = Py.strip s.
Proof.
  unfold Py.strip.
  now rewrite rstrip_lstrip, rstrip_idem, lstrip_idem.
Qed.

(** A normalized cell is lowercase and trimmed. *)
Lemma normalize_lower_trimmed cell :
  Py.lower (normalize cell) = normalize cell
  /\ Py.strip (normalize cell) = normalize cell.
Proof.
  unfold normalize. split; [apply lower_idem|].
  now rewrite <- lower_strip, strip_idem.
Qed.

Lemma nonempty_normalize_clean cell :
  Csv.nonempty (normalize cell) = true -> clean (normalize cell).
Proof.
  intros H. split; [|apply normalize_lower_trimmed].
  intros E. rewrite E in H. discriminate.
Qed.

Lemma foldl_set_invariant {A} (P : string -> Prop) (f : gset string -> A -> gset string) :
  (forall acc a, (forall x, x ∈ acc -> P x) -> forall x, x ∈ f acc a -> P x) ->
  forall l acc, (forall x, x ∈ acc -> P x) -> forall x, x ∈ foldl f acc l -> P x.
Proof.
  intros Hf. induction l as [|a l IH]; intros acc Hacc x Hx; simpl in Hx.
  - now apply Hacc.
  - apply (IH (f acc a)); [|exact Hx]. now apply Hf.
Qed.

Lemma read_headered_clean rows x : x ∈ read_headered rows -> clean x.
Proof.
  unfold read_headered. apply foldl_set_invariant.
  - intros acc row Hacc y Hy.
    destruct (Csv.nonempty _) eqn:E; [|now apply Hacc].
    apply elem_of_union in Hy. destruct Hy as [Hy|Hy]; [|now apply Hacc].
    apply elem_of_singleton in Hy. subst y. now apply nonempty_normalize_clean.
  - intros y Hy. now apply not_elem_of_empty in Hy.
Qed.

Lemma read_headerless_clean rows x :
  x ∈ read_headerless rows -> clean x /\ x <> "email".
Proof.
  unfold read_headerless.
  apply (foldl_set_invariant (fun y => clean y /\ y <> "email")).
  - intros acc row Hacc y Hy.
    destruct row as [|cell row']; [now apply Hacc|].
    destruct (String.eqb _ "email") eqn:Ee; [now apply Hacc|].
    destruct (Csv.nonempty _) eqn:E; [|now apply Hacc].
    apply elem_of_union in Hy. destruct Hy as [Hy|Hy]; [|now apply Hacc].
    apply elem_of_singleton in Hy. subst y. split.
    + now apply nonempty_normalize_clean.
    + now apply String.eqb_neq.
  - intros y Hy. now apply not_elem_of_empty in Hy.
Qed.

(** The part of C8 that the code keeps: whatever file it reads, the loader
    returns only non-empty, lowercase, trimmed entries, and on the
    headerless path never the word [email]. *)
Lemma loader_entries_clean text bl x :
  _read_blacklist (Content text) = Ok bl -> x ∈ bl ->
  clean x /\ (has_header (Csv.readline text) = false -> x <> "email").
Proof.
  unfold _read_blacklist. destruct (Csv.reader text) as [rows|]; [|discriminate].
  intros [= <-]. destruct (has_header _).
  - intros Hx. split; [now apply (read_headered_clean rows)|discriminate].
  - intros Hx. destruct (read_headerless_clean rows x Hx). auto.
Qed.

(** ** The check after the attempt loop *)

Lemma attempt_loop_settled cfg world stop i r : forall n a st,
  a + n = retries -> 0 < n ->
  settled stop (attempt_loop cfg world stop i r n a st).
Proof.
  induction n as [|n IH]; intros a st Han Hn; [lia|].
  simpl. rewrite attempt_body_eq.
  destruct (send_message world i a) as [|m|info|code m|m].
  - reflexivity.
  - unfold handle_disconnect. destruct (Nat.ltb a (retries - 1)) eqn:E.
    + apply Nat.ltb_lt in E. destruct (reconnect world i a); [exact I|].
      apply IH; lia.
    + exact I.
  - unfold handle_rejection.
    destruct (Py.code_is _ 556); [apply andb_false_r|].
    destruct (Py.contains _ _); [apply andb_false_r|].
    destruct stop; [exact I | reflexivity].
  - unfold handle_rejection.
    destruct (Py.code_is _ 556); [apply andb_false_r|].
    destruct (Py.contains _ _); [apply andb_false_r|].
    destruct stop; [exact I | reflexivity].
  - unfold handle_exception.
    destruct (Py.contains _ _); [apply andb_false_r|].
    destruct stop; [exact I | reflexivity].
Qed.

(** Lines 365-370 never run: no recipient ends with the report
    [StoppedAfterRetries]. *)
Lemma retries_report_unreachable cfg world bl stop i r st :
  process_recipient cfg world bl stop i r st =
    if bool_decide (Py.lower (Py.strip (email_cell r)) ∈ bl)
    then (writerow {| address := Py.strip (email_cell r);
                      status := "skipped_blacklist";
                      detail := "blacklisted" |} st, Continue)
    else match attempt_loop cfg world stop i r retries 0 st with
         | (st', _, RaiseNow e) => (st', Raise e)
         | (st', _, ReturnNow) => (st', Return)
         | (st', _, _) => (st', Continue)
         end.
Proof.
  unfold process_recipient.
  destruct (bool_decide _); [reflexivity|].
  pose proof (attempt_loop_settled cfg world stop i r retries 0 st eq_refl) as H.
  destruct (attempt_loop cfg world stop i r retries 0 st) as [[st' fl] ex].
  specialize (H ltac:(unfold retries; lia)).
  destruct ex; simpl in H; try reflexivity; try contradiction.
  now rewrite H.
Qed.

(** ** Concrete runs *)

(** C1, the code at the failing input. With [stop_on_error] unset, two
    recipients and a relay that drops every connection, the first
    recipient's third disconnect ends the run with the exception: after
    three send attempts the results file has no [failed] row for her, and
    the second recipient is never processed, where the generic handler
    would have written the row and gone on. *)
Lemma exhausted_disconnect_not_recorded :
  let run := send_newsletters cfg0 (steady (always lost))
               (ready EmptyString [ann; bob]) false init in
  outcome run = Propagated (SMTPServerDisconnected "Connection unexpectedly closed")
  /\ results_file run = Some []
  /\ sends (trace (final run)) = 3.
Proof. vm_compute. repeat split. Qed.

Lemma exhausted_disconnect_witness :
  exists st',
    process_recipient cfg0 (steady (always lost)) ∅ false 1 ann init
      = (st', Raise (SMTPServerDisconnected "Connection unexpectedly closed"))
    /\ rows st' = [].
Proof.
  destruct (exhausted_disconnect_propagates cfg0 (steady (always lost)) ∅ false 1
              ann [bob] init "Connection unexpectedly closed")
    as [st' [Hp [Hr _]]].
  - not_suppressed_in_empty.
  - retried_by_cases.
  - reflexivity.
  - exists st'. split; [exact Hp | exact Hr].
Defined.

(** C2 does not hold as stated. A rejection with the code 556 whose message
    has the policy-violation text is recorded as [skipped], without a
    pause; a disconnect with that text in its message is retried and, the
    third time, raised, without a row. *)
Lemma policy_text_not_always_paused :
  let refused := DataError (Some 556%Z) "Policy violation: sending rate" in
  let dropped := ServerDisconnected "policy violation" in
  let res1 := process_recipient cfg0 (steady (always refused)) ∅ false 1 ann init in
  let res2 := process_recipient cfg0 (steady (always dropped)) ∅ false 1 ann init in
  has_policy_text refused = true
  /\ rows (fst res1) = [ {| address := "ann@x.org"; status := "skipped";
                           detail := "556 Policy violation: sending rate" |} ]
  /\ policy_pauses (trace (fst res1)) = 0
  /\ has_policy_text dropped = true
  /\ rows (fst res2) = []
  /\ snd res2 = Raise (SMTPServerDisconnected "policy violation").
Proof. vm_compute. repeat split. Qed.

Lemma policy_violation_witness :
  exists st',
    process_recipient cfg0 (steady (second_try (OtherFailure "554 Policy Violation detected")))
      ∅ true 1 ann init = (st', Continue)
    /\ rows st' = [ {| address := "ann@x.org"; status := "skipped_policy_violation";
                       detail := "554 Policy Violation detected" |} ].
Proof.
  destruct (policy_violation_paused cfg0
              (steady (second_try (OtherFailure "554 Policy Violation detected")))
              ∅ true 1 ann [bob] init 1)
    as [st' [Hp [Hr _]]].
  - not_suppressed_in_empty.
  - unfold retries. lia.
  - retried_by_cases.
  - reflexivity.
  - reflexivity.
  - reflexivity.
  - exists st'. split; [exact Hp | exact Hr].
Defined.

Lemma unclassified_failure_witness :
  exists st',
    dispatch cfg0 (steady (always (DataError (Some 550%Z) "mailbox unavailable")))
      ∅ true 1 [ann; bob] init = (st', Return)
    /\ rows st' = [ {| address := "ann@x.org"; status := "failed";
                       detail := "550 mailbox unavailable" |} ].
Proof.
  destruct (unclassified_failure_stops_or_continues cfg0
              (steady (always (DataError (Some 550%Z) "mailbox unavailable")))
              ∅ true 1 ann [bob] init 0)
    as [st' [Hr [_ [Hd _]]]].
  - not_suppressed_in_empty.
  - unfold retries. lia.
  - retried_by_cases.
  - reflexivity.
  - exists st'. split; [exact Hd | exact Hr].
Defined.

Lemma invalid_domain_witness :
  exists st',
    process_recipient cfg0
      (steady (always (RecipientsRefused (InfoTuple (Some 556%Z) (Some "invalid domain")))))
      ∅ true 1 ann init = (st', Continue)
    /\ rows st' = [ {| address := "ann@x.org"; status := "skipped";
                       detail := "556 invalid domain" |} ].
Proof.
  destruct (invalid_domain_skipped cfg0
              (steady (always (RecipientsRefused (InfoTuple (Some 556%Z) (Some "invalid domain")))))
              ∅ true 1 ann [bob] init 0)
    as [st' [Hp [Hr _]]].
  - not_suppressed_in_empty.
  - unfold retries. lia.
  - retried_by_cases.
  - reflexivity.
  - exists st'. split; [exact Hp | exact Hr].
Defined.

Lemma code_556_witness :
  exists st',
    process_recipient cfg0
      (steady (always (DataError (Some 556%Z) "Policy violation")))
      ∅ true 1 ann init = (st', Continue)
    /\ policy_pauses (trace st') = 0.
Proof.
  destruct (code_556_before_policy_text cfg0
              (steady (always (DataError (Some 556%Z) "Policy violation")))
              ∅ true 1 ann init 0 (Some 556%Z) "Policy violation")
    as [_ [st' [Hp [_ Hn]]]].
  - not_suppressed_in_empty.
  - unfold retries. lia.
  - retried_by_cases.
  - reflexivity.
  - reflexivity.
  - reflexivity.
  - exists st'. split; [exact Hp | exact Hn].
Defined.

Lemma suppressed_recipient_witness :
  exists st',
    process_recipient cfg0 (steady (always Delivered)) {[ "bob@x.org" ]} true 1
      (to " Bob@X.org ") init = (st', Continue)
    /\ rows st' = [ {| address := "Bob@X.org"; status := "skipped_blacklist";
                       detail := "blacklisted" |} ]
    /\ trace st' = [].
Proof.
  destruct (suppressed_recipient_skipped cfg0 (steady (always Delivered))
              {[ "bob@x.org" ]} true 1 (to " Bob@X.org ") [] init)
    as [st' [Hp [Hr [Ht _]]]].
  - unfold suppressed. apply elem_of_singleton. reflexivity.
  - exists st'. repeat split; [exact Hp | exact Hr | exact Ht].
Defined.

Lemma rate_limit_witness :
  exists pause,
    trace (_rate_limit cfg0 100 (record_success 90 ann
             {| sent_count := 49; last_send_time := 80;
                last_successful_email := None; rows := []; trace := [] |}))
      = [] ++ pause
    /\ Z.of_nat (length pause) = 60%Z.
Proof.
  destruct (proj1 (rate_limit_rules cfg0 100 (record_success 90 ann
             {| sent_count := 49; last_send_time := 80;
                last_successful_email := None; rows := []; trace := [] |})))
    as [pause [Ht [_ [Hl _]]]].
  - vm_compute. discriminate.
  - vm_compute. discriminate.
  - exists pause. split; [exact Ht | exact Hl].
Defined.

(** C7 does not hold as stated: when the suppression file is missing,
    nothing is raised; [send_newsletters] returns and [main] reports
    success. *)
Lemma blacklist_failure_is_caught :
  let env := {| blacklist_file := Missing "recipients_blacklist.csv";
                smtp_test := None; template_file := None;
                recipients_file := Ok [ann]; session_open := None |} in
  outcome (send_newsletters cfg0 (steady (always Delivered)) env true init) = BlacklistAbort
  /\ fst (main cfg0 (steady (always Delivered)) env) = CompletedSuccessfully.
Proof. vm_compute. split; reflexivity. Qed.

Lemma startup_failures_witness :
  fst (main cfg0 (steady (always Delivered))
         {| blacklist_file := Content EmptyString;
            smtp_test := Some (SMTPAuthenticationError "535 bad credentials");
            template_file := None;
            recipients_file := Ok [ann]; session_open := None |})
  = FailedWith (SMTPAuthenticationError "535 bad credentials").
Proof.
  apply (proj2 (startup_failures cfg0 (steady (always Delivered))
         {| blacklist_file := Content EmptyString;
            smtp_test := Some (SMTPAuthenticationError "535 bad credentials");
            template_file := None;
            recipients_file := Ok [ann]; session_open := None |} true init) ∅).
  - reflexivity.
  - reflexivity.
Defined.

(** C9 does not hold as stated: an address the recipient file lists twice
    is written twice. *)
Lemma repeated_address_written_twice :
  let run := send_newsletters cfg0 (steady (always Delivered))
               (ready EmptyString [ann; ann]) true init in
  results_file run
    = Some [ {| address := "ann@x.org"; status := "success"; detail := EmptyString |};
             {| address := "ann@x.org"; status := "success"; detail := EmptyString |} ]
  /\ match results_file run with
     | Some out => occurrences "ann@x.org" out = 2
     | None => False
     end.
Proof. vm_compute. split; reflexivity. Qed.

Lemma results_follow_recipients_witness :
  Forall2 row_for [ann; bob]
    [ {| address := "ann@x.org"; status := "skipped_blacklist"; detail := "blacklisted" |};
      {| address := "bob@x.org"; status := "success"; detail := EmptyString |} ].
Proof.
  apply (results_follow_recipients cfg0 (steady (always Delivered))
           (ready ("email" +:+ nl +:+ "Ann@X.org" +:+ nl) [ann; bob]) true init [ann; bob]
           [ {| address := "ann@x.org"; status := "skipped_blacklist";
                detail := "blacklisted" |};
             {| address := "bob@x.org"; status := "success"; detail := EmptyString |} ]).
  - reflexivity.
  - vm_compute. reflexivity.
Defined.

(** ** The loader on a headerless list *)

(** C8, the code at the failing inputs. A one-column list without a header
    whose first address contains [email] is taken for a headered file: the
    first address becomes the column name, no column is called [email], and
    the loader returns the empty set. The same happens to a header spelt
    [Email]. A list whose first line has no [email] in it is loaded. *)
Theorem headerless_list_lost :
  _read_blacklist (Content ("bob@email.com" +:+ nl +:+ "ann@x.org" +:+ nl)) = Ok ∅
  /\ _read_blacklist (Content ("Email" +:+ nl +:+ "ann@x.org" +:+ nl)) = Ok ∅
  /\ _read_blacklist (Content ("bob@mail.com" +:+ nl +:+ "ann@x.org" +:+ nl))
     = Ok ({[ "bob@mail.com" ]} ∪ {[ "ann@x.org" ]}).
Proof. vm_compute. repeat split. Qed.
(** * Further properties of the engine *)

(** ** A delivered message *)

(** X1. When the attempt that decides a recipient is delivered, the
    recipient gets the row [success]; the batch counter is one more than the
    rate limiter left it (so one more than before, or 1 after a batch
    pause), the time of the last send is the clock reading taken after the
    send, the last successful address is the recipient's, and the loop goes
    on with the next recipient whatever [stop_on_error] says. *)
Theorem delivered_recorded cfg world bl stop i r rest st k :
  ~ suppressed bl r -> k < retries -> retried world i k ->
  send_message world i k = Delivered ->
  exists st',
    process_recipient cfg world bl stop i r st = (st', Continue)
    /\ rows st' = rows st ++ [outcome_row r "success" EmptyString]
    /\ (sent_count st' = (sent_count st + 1)%Z \/ sent_count st' = 1%Z)
    /\ last_send_time st' = clock_sent world i k
    /\ last_successful_email st' = email r
    /\ (exists added, trace st' = trace st ++ added
                      /\ Forall (fun e => is_attempt_event e = true) added
                      /\ sends added = S k)
    /\ dispatch cfg world bl stop i (r :: rest) st
       = dispatch cfg world bl stop (S i) rest st'.
Proof.
  intros Hns Hk Hret Hsend.
  destruct (process_decided cfg world bl stop i r k st Hns Hk Hret)
    as [st0 [Hreach Hp]].
  rewrite attempt_body_eq, Hsend in Hp. simpl in Hp.
  eexists. split; [exact Hp|].
  destruct Hreach as [Hrows _ _ Hcount Htrace].
  split; [cbn [rows record_success writerow]; now rewrite Hrows|].
  split.
  { cbn [sent_count record_success writerow].
    destruct Hcount as [-> | ->]; [left | right]; reflexivity. }
  split; [reflexivity|]. split; [reflexivity|].
  split; [exact Htrace|]. now apply dispatch_continue.
Qed.

Lemma delivered_witness :
  exists st',
    process_recipient cfg0 (steady (second_try Delivered)) ∅ true 1 ann init
      = (st', Continue)
    /\ rows st' = [ {| address := "ann@x.org"; status := "success";
                       detail := EmptyString |} ]
    /\ last_successful_email st' = Some "ann@x.org".
Proof.
  destruct (delivered_recorded cfg0 (steady (second_try Delivered)) ∅ true 1 ann
              [bob] init 1)
    as [st' [Hp [Hr [_ [_ [Hl _]]]]]].
  - not_suppressed_in_empty.
  - unfold retries. lia.
  - retried_by_cases.
  - reflexivity.
  - exists st'. repeat split; [exact Hp | exact Hr | exact Hl].
Defined.

(** ** A reconnect that fails *)

(** X2. When an attempt before the last loses the connection and the
    reconnect that follows the five-second wait raises, that exception
    leaves both loops whatever [stop_on_error] says: the recipient gets no
    row, nor does any later one, no reconnect is traced, and the run ends
    with the fatal-error report and the exception raised to the caller. *)
Theorem reconnect_failure_propagates cfg world bl stop i r rest st k e :
  ~ suppressed bl r -> k < retries - 1 -> retried world i k ->
  is_disconnect (send_message world i k) = true ->
  reconnect world i k = Some e ->
  exists st',
    process_recipient cfg world bl stop i r st = (st', Raise e)
    /\ rows st' = rows st
    /\ (exists added, trace st' = trace st ++ added ++ [Sleep ReconnectDelay 5]
                      /\ Forall (fun e => is_attempt_event e = true) added
                      /\ sends added = S k)
    /\ outcome (close_run (dispatch cfg world bl stop i (r :: rest) st)) = Propagated e
    /\ results_file (close_run (dispatch cfg world bl stop i (r :: rest) st))
       = Some (rows st).
Proof.
  intros Hns Hk Hret Hd Hrec.
  destruct (process_decided cfg world bl stop i r k st Hns) as [st0 [Hreach Hp]];
    [lia | exact Hret |].
  rewrite attempt_body_eq in Hp.
  destruct (send_message world i k) as [|m|info|code m|m]; try discriminate.
  unfold handle_disconnect in Hp.
  apply Nat.ltb_lt in Hk. rewrite Hk, Hrec in Hp.
  eexists. split; [exact Hp|].
  destruct Hreach as [Hrows _ _ _ [added [Ha [Hf Hn]]]].
  split; [exact Hrows|]. split.
  { exists added. cbn [trace log]. rewrite Ha, app_assoc. auto. }
  rewrite (dispatch_raise _ _ _ _ _ _ _ _ _ _ Hp).
  split; [reflexivity|]. cbn. now rewrite Hrows.
Qed.

Lemma reconnect_failure_witness :
  exists st',
    process_recipient cfg0
      {| clock_rate_limit := fun _ _ => 100%Q;
         send_message := always lost;
         clock_sent := fun _ _ => 100%Q;
         reconnect := fun _ _ => Some (OtherException "Connection refused") |}
      ∅ false 1 ann init = (st', Raise (OtherException "Connection refused"))
    /\ rows st' = [].
Proof.
  destruct (reconnect_failure_propagates cfg0
      {| clock_rate_limit := fun _ _ => 100%Q;
         send_message := always lost;
         clock_sent := fun _ _ => 100%Q;
         reconnect := fun _ _ => Some (OtherException "Connection refused") |}
      ∅ false 1 ann [bob] init 0 (OtherException "Connection refused"))
    as [st' [Hp [Hr _]]].
  - not_suppressed_in_empty.
  - unfold retries. lia.
  - intros j Hj. lia.
  - reflexivity.
  - reflexivity.
  - exists st'. split; [exact Hp | exact Hr].
Defined.

(** ** What one recipient adds to the trace *)

Lemma reconnects_app t1 t2 : reconnects (t1 ++ t2) = reconnects t1 + reconnects t2.
Proof. unfold reconnects. now rewrite List.filter_app, length_app. Qed.

Lemma rate_limit_adds cfg now st :
  exists rl, trace (_rate_limit cfg now st) = trace st ++ rl
             /\ Forall (fun e => is_rate_wait e = true) rl.
Proof.
  unfold _rate_limit. destruct (emails_per_batch cfg <=? sent_count st)%Z.
  - exists (countdown (batch_delay cfg)). split; [reflexivity|].
    unfold countdown. induction (Z.to_nat (batch_delay cfg)); simpl; constructor; auto.
  - destruct (Qltb _ _).
    + eexists. split; [reflexivity|]. repeat constructor.
    + exists []. split; [now rewrite app_nil_r | constructor].
Qed.

Lemma rate_waits_uncounted (p : Event -> bool) rl :
  (forall e, is_rate_wait e = true -> p e = false) ->
  Forall (fun e => is_rate_wait e = true) rl ->
  List.filter p rl = [].
Proof.
  intros Hp. induction 1 as [|e l He _ IH]; [reflexivity|].
  simpl. now rewrite (Hp e He).
Qed.

Lemma handle_rejection_tail stop r code message st :
  exists tail,
    trace (fst (fst (handle_rejection stop r code message st))) = trace st ++ tail
    /\ handler_tail (snd (handle_rejection stop r code message st)) tail
    /\ snd (handle_rejection stop r code message st) <> NextAttempt.
Proof.
  unfold handle_rejection.
  destruct (Py.code_is code 556).
  { exists []. cbn. rewrite app_nil_r. repeat split; [constructor | discriminate]. }
  destruct (Py.contains _ _).
  { eexists. repeat split; [constructor | discriminate]. }
  destruct stop.
  - eexists. repeat split; [constructor | discriminate].
  - exists []. cbn. rewrite app_nil_r. repeat split; [constructor | discriminate].
Qed.

Lemma handle_exception_tail stop r msg st :
  exists tail,
    trace (fst (fst (handle_exception stop r msg st))) = trace st ++ tail
    /\ handler_tail (snd (handle_exception stop r msg st)) tail
    /\ snd (handle_exception stop r msg st) <> NextAttempt.
Proof.
  unfold handle_exception.
  destruct (Py.contains _ _).
  { eexists. repeat split; [constructor | discriminate]. }
  destruct stop.
  - eexists. repeat split; [constructor | discriminate].
  - exists []. cbn. rewrite app_nil_r. repeat split; [constructor | discriminate].
Qed.

Lemma handle_disconnect_tail world i a msg st :
  exists tail,
    trace (fst (fst (handle_disconnect world i a msg st))) = trace st ++ tail
    /\ handler_tail (snd (handle_disconnect world i a msg st)) tail
    /\ (snd (handle_disconnect world i a msg st) = NextAttempt -> a < retries - 1).
Proof.
  unfold handle_disconnect.
  destruct (Nat.ltb a (retries - 1)) eqn:E.
  - apply Nat.ltb_lt in E. destruct (reconnect world i a); cbn.
    + eexists. split; [reflexivity|]. split; [apply tail_reconnect_failed | auto].
    + exists [Sleep ReconnectDelay 5; Reconnect]. rewrite <- app_assoc.
      split; [reflexivity|]. split; [constructor | auto].
  - exists []. cbn. rewrite app_nil_r.
    split; [reflexivity|]. split; [apply tail_raise | discriminate].
Qed.

(** One attempt: the rate limiter's waits, the send, the handler's events. *)
Lemma attempt_body_trace cfg world stop i r a st :
  exists rl tail,
    trace (fst (fst (attempt_body cfg world stop i r a st)))
      = trace st ++ rl ++ SendAttempt (email r) :: tail
    /\ Forall (fun e => is_rate_wait e = true) rl
    /\ handler_tail (snd (attempt_body cfg world stop i r a st)) tail
    /\ (snd (attempt_body cfg world stop i r a st) = NextAttempt -> a < retries - 1).
Proof.
  rewrite attempt_body_eq.
  destruct (rate_limit_adds cfg (clock_rate_limit world i a) st) as [rl [Hrl Hf]].
  assert (Hs : forall tail,
             trace (at_send cfg world i r a st) ++ tail
             = trace st ++ rl ++ SendAttempt (email r) :: tail).
  { intros tail. unfold at_send. cbn [trace log].
    rewrite Hrl, <- !app_assoc. reflexivity. }
  exists rl.
  destruct (send_message world i a) as [|m|info|code m|m].
  - exists []. cbn [fst snd trace record_success writerow].
    rewrite <- Hs, app_nil_r.
    split; [reflexivity|]. split; [exact Hf|]. split; [constructor | discriminate].
  - destruct (handle_disconnect_tail world i a m (at_send cfg world i r a st))
      as [tail [Ht [Hh Hn]]].
    exists tail. rewrite Ht, Hs. repeat split; auto.
  - destruct (handle_rejection_tail stop r (fst (refused_code_message info))
                (snd (refused_code_message info)) (at_send cfg world i r a st))
      as [tail [Ht [Hh Hne]]].
    exists tail. rewrite Ht, Hs. repeat split; auto.
    intros E. contradiction.
  - destruct (handle_rejection_tail stop r code m (at_send cfg world i r a st))
      as [tail [Ht [Hh Hne]]].
    exists tail. rewrite Ht, Hs. repeat split; auto.
    intros E. contradiction.
  - destruct (handle_exception_tail stop r m (at_send cfg world i r a st))
      as [tail [Ht [Hh Hne]]].
    exists tail. rewrite Ht, Hs. repeat split; auto.
    intros E. contradiction.
Qed.

Lemma attempt_counts ex rl to_ tail :
  Forall (fun e => is_rate_wait e = true) rl ->
  handler_tail ex tail ->
  sends (rl ++ SendAttempt to_ :: tail) = 1
  /\ reconnects (rl ++ SendAttempt to_ :: tail)
     = match ex with NextAttempt => 1 | _ => 0 end
  /\ policy_pauses (rl ++ SendAttempt to_ :: tail)
     <= match ex with NextAttempt => 0 | _ => 1 end
  /\ Forall (fun e => is_retries_report e = false) (rl ++ SendAttempt to_ :: tail).
Proof.
  intros Hrl Ht.
  assert (Hn : Forall (fun e => is_retries_report e = false) rl).
  { eapply Forall_impl; [exact Hrl|]. intros [[] d| | |]; simpl; congruence. }
  unfold sends, reconnects, policy_pauses.
  rewrite !List.filter_app.
  rewrite (rate_waits_uncounted is_send rl), (rate_waits_uncounted is_reconnect rl),
    (rate_waits_uncounted is_policy_pause rl); auto;
    try (intros [[] d| | |]; simpl; congruence).
  inversion Ht; subst; simpl; repeat split; auto;
    apply Forall_app; split; auto; repeat constructor.
Qed.

(** The events of the attempt loop of one recipient. *)
Lemma attempt_loop_bounded cfg world stop i r : forall n a st,
  a + n = retries -> 0 < n ->
  exists added,
    trace (fst (fst (attempt_loop cfg world stop i r n a st))) = trace st ++ added
    /\ bounded_events n added.
Proof.
  induction n as [|n IH]; intros a st Han Hn; [lia|].
  cbn [attempt_loop].
  destruct (attempt_body_trace cfg world stop i r a st) as [rl [tail [Ht [Hrl [Hh Hnext]]]]].
  destruct (attempt_body cfg world stop i r a st) as [[st1 fl] ex].
  cbn [fst snd] in Ht, Hh, Hnext.
  destruct (attempt_counts ex rl (email r) tail Hrl Hh) as [Hs [Hr [Hp Hf]]].
  destruct ex.
  - exists (rl ++ SendAttempt (email r) :: tail). split; [exact Ht|].
    split; auto; lia.
  - specialize (Hnext eq_refl).
    destruct (IH (S a) st1) as [added [Ha [Hs' Hr' Hp' Hf']]]; [lia | lia |].
    exists ((rl ++ SendAttempt (email r) :: tail) ++ added). split.
    + rewrite Ha, Ht, <- !app_assoc. reflexivity.
    + split.
      * rewrite sends_app. lia.
      * rewrite reconnects_app. unfold retries in *. lia.
      * rewrite policy_pauses_app. lia.
      * apply Forall_app. auto.
  - exists (rl ++ SendAttempt (email r) :: tail). split; [exact Ht|].
    split; auto; lia.
  - exists (rl ++ SendAttempt (email r) :: tail). split; [exact Ht|].
    split; auto; lia.
Qed.

Lemma process_recipient_bounded cfg world bl stop i r st :
  exists added,
    trace (fst (process_recipient cfg world bl stop i r st)) = trace st ++ added
    /\ bounded_events retries added.
Proof.
  rewrite retries_report_unreachable.
  destruct (bool_decide _).
  - exists []. cbn. rewrite app_nil_r. split; [reflexivity|].
    split; cbn; try lia. constructor.
  - destruct (attempt_loop_bounded cfg world stop i r retries 0 st eq_refl)
      as [added [Ha Hb]]; [unfold retries; lia|].
    exists added. split; [|exact Hb].
    destruct (attempt_loop cfg world stop i r retries 0 st) as [[st' fl] ex].
    destruct ex; exact Ha.
Qed.

(** X3. Whatever the relay does, one recipient costs at most three send
    attempts, at most two reconnects and at most one policy-violation
    pause. *)
Theorem attempts_bounded cfg world bl stop i r st :
  exists added,
    trace (fst (process_recipient cfg world bl stop i r st)) = trace st ++ added
    /\ sends added <= 3
    /\ reconnects added <= 2
    /\ policy_pauses added <= 1.
Proof.
  destruct (process_recipient_bounded cfg world bl stop i r st)
    as [added [Ha [Hs Hr Hp _]]].
  exists added. unfold retries in *. auto.
Qed.

Lemma dispatch_no_retries_report cfg world bl stop : forall recipients i st,
  exists added,
    trace (fst (dispatch cfg world bl stop i recipients st)) = trace st ++ added
    /\ Forall (fun e => is_retries_report e = false) added.
Proof.
  induction recipients as [|r rest IH]; intros i st.
  - exists []. cbn. rewrite app_nil_r. auto.
  - cbn [dispatch].
    destruct (process_recipient_bounded cfg world bl stop i r st)
      as [added [Ha [_ _ _ Hf]]].
    destruct (process_recipient cfg world bl stop i r st) as [st1 c].
    cbn [fst] in Ha.
    destruct c; try (exists added; split; [exact Ha | exact Hf]).
    destruct (IH (S i) st1) as [added' [Ha' Hf']].
    exists (added ++ added'). split.
    + rewrite Ha', Ha, app_assoc. reflexivity.
    + apply Forall_app. auto.
Qed.

(** X4. The stop report of the check after the attempt loop ("stopping due
    to failed email after all retries", lines 365-370) is never produced:
    no run adds it to the trace. *)
Theorem retries_report_never_printed cfg world env stop self :
  exists added,
    trace (final (send_newsletters cfg world env stop self)) = trace self ++ added
    /\ Forall (fun e => is_retries_report e = false) added.
Proof.
  assert (Hnone : exists added, trace self = trace self ++ added
                    /\ Forall (fun e => is_retries_report e = false) added).
  { exists []. rewrite app_nil_r. auto. }
  unfold send_newsletters.
  destruct (_read_blacklist (blacklist_file env)) as [bl|e]; [|exact Hnone].
  destruct (smtp_test env); [exact Hnone|].
  destruct (template_file env); [exact Hnone|].
  destruct (recipients_file env) as [recipients|e]; [|exact Hnone].
  destruct (session_open env).
  - eexists. cbn. split; [reflexivity|]. repeat constructor.
  - destruct (dispatch_no_retries_report cfg world bl stop recipients 1 (open_results self))
      as [added [Ha Hf]].
    destruct (dispatch cfg world bl stop 1 recipients (open_results self)) as [st' c].
    cbn [fst] in Ha. cbn [trace open_results] in Ha.
    destruct c; cbn.
    + exists (added ++ [Report ProcessComplete (last_successful_email st') (sent_count st')]).
      rewrite Ha, app_assoc. split; [reflexivity|].
      apply Forall_app. split; [exact Hf | repeat constructor].
    + exists added. auto.
    + exists (added ++ [Report FatalError (last_successful_email st') (sent_count st')]).
      rewrite Ha, app_assoc. split; [reflexivity|].
      apply Forall_app. split; [exact Hf | repeat constructor].
Qed.

(** ** How a run ends *)

Lemma handle_rejection_return stop r code message st :
  snd (handle_rejection stop r code message st) = ReturnNow ->
  stop = true
  /\ exists d, rows (fst (fst (handle_rejection stop r code message st)))
               = rows st ++ [outcome_row r "failed" d].
Proof.
  unfold handle_rejection.
  destruct (Py.code_is code 556); [discriminate|].
  destruct (Py.contains _ _); [discriminate|].
  destruct stop; [|discriminate].
  intros _. split; [reflexivity|]. eexists. reflexivity.
Qed.

Lemma handle_exception_return stop r msg st :
  snd (handle_exception stop r msg st) = ReturnNow ->
  stop = true
  /\ exists d, rows (fst (fst (handle_exception stop r msg st)))
               = rows st ++ [outcome_row r "failed" d].
Proof.
  unfold handle_exception.
  destruct (Py.contains _ _); [discriminate|].
  destruct stop; [|discriminate].
  intros _. split; [reflexivity|]. eexists. reflexivity.
Qed.

Lemma attempt_body_return cfg world stop i r a st :
  snd (attempt_body cfg world stop i r a st) = ReturnNow ->
  stop = true
  /\ exists d, rows (fst (fst (attempt_body cfg world stop i r a st)))
               = rows st ++ [outcome_row r "failed" d].
Proof.
  rewrite attempt_body_eq.
  pose proof (at_send_rows cfg world i r a st) as Hr.
  destruct (send_message world i a) as [|m|info|code m|m].
  - discriminate.
  - unfold handle_disconnect. destruct (Nat.ltb a (retries - 1)); [|discriminate].
    destruct (reconnect world i a); discriminate.
  - intros H. apply handle_rejection_return in H. now rewrite Hr in H.
  - intros H. apply handle_rejection_return in H. now rewrite Hr in H.
  - intros H. apply handle_exception_return in H. now rewrite Hr in H.
Qed.

Lemma attempt_loop_return cfg world stop i r : forall n a st,
  snd (attempt_loop cfg world stop i r n a st) = ReturnNow ->
  stop = true
  /\ exists d, rows (fst (fst (attempt_loop cfg world stop i r n a st)))
               = rows st ++ [outcome_row r "failed" d].
Proof.
  induction n as [|n IH]; intros a st; [discriminate|].
  cbn [attempt_loop].
  pose proof (attempt_body_return cfg world stop i r a st) as Hb.
  pose proof (attempt_body_rows cfg world stop i r a st) as Hrows.
  destruct (attempt_body cfg world stop i r a st) as [[st1 fl] ex].
  cbn [fst snd] in Hb, Hrows.
  destruct ex; try discriminate.
  - intros H. inversion Hrows as [Ha Hr Hex | | |]. rewrite <- Hr. now apply IH.
  - intros _. now apply Hb.
Qed.

Lemma process_recipient_return cfg world bl stop i r st :
  snd (process_recipient cfg world bl stop i r st) = Return ->
  stop = true
  /\ exists d, rows (fst (process_recipient cfg world bl stop i r st))
               = rows st ++ [outcome_row r "failed" d].
Proof.
  rewrite retries_report_unreachable.
  destruct (bool_decide _); [discriminate|].
  pose proof (attempt_loop_return cfg world stop i r retries 0 st) as Hl.
  destruct (attempt_loop cfg world stop i r retries 0 st) as [[st' fl] ex].
  cbn [fst snd] in Hl.
  destruct ex; try discriminate. intros _. now apply Hl.
Qed.

Lemma dispatch_return_failed cfg world bl stop : forall recipients i st,
  snd (dispatch cfg world bl stop i recipients st) = Return ->
  stop = true
  /\ exists pre r d,
       r ∈ recipients
       /\ rows (fst (dispatch cfg world bl stop i recipients st))
          = rows st ++ pre ++ [outcome_row r "failed" d].
Proof.
  induction recipients as [|r rest IH]; intros i st; [discriminate|].
  cbn [dispatch].
  pose proof (process_recipient_return cfg world bl stop i r st) as Hp.
  pose proof (process_recipient_rows cfg world bl stop i r st) as Hrows.
  destruct (process_recipient cfg world bl stop i r st) as [st1 c].
  cbn [fst snd] in Hp.
  destruct c; try discriminate.
  - intros H. destruct (IH (S i) st1 H) as [Hs [pre [r' [d [Hin Hr]]]]].
    split; [exact Hs|].
    destruct Hrows as [row [Hrow _]].
    exists (row :: pre), r', d. split; [now right|].
    rewrite Hr, Hrow, <- app_assoc. reflexivity.
  - intros _. destruct (Hp eq_refl) as [Hs [d Hd]].
    split; [exact Hs|]. exists [], r, d. split; [now left | exact Hd].
Qed.

(** X5. A run returns early from the loop over the recipients only with
    [stop_on_error] set, and then the last row of the results file is the
    [failed] row of one of the recipients. With [stop_on_error] unset, no
    run stops early. *)
Theorem early_stop_only_after_failure cfg world env stop self recipients :
  recipients_file env = Ok recipients ->
  outcome (send_newsletters cfg world env stop self) = StoppedEarly ->
  stop = true
  /\ exists pre r d,
       r ∈ recipients
       /\ results_file (send_newsletters cfg world env stop self)
          = Some (pre ++ [outcome_row r "failed" d]).
Proof.
  intros Hrec. unfold send_newsletters.
  destruct (_read_blacklist (blacklist_file env)) as [bl|e]; [|discriminate].
  destruct (smtp_test env); [discriminate|].
  destruct (template_file env); [discriminate|].
  rewrite Hrec.
  destruct (session_open env); [discriminate|].
  pose proof (dispatch_return_failed cfg world bl stop recipients 1 (open_results self))
    as Hd.
  destruct (dispatch cfg world bl stop 1 recipients (open_results self)) as [st' c].
  cbn [fst snd] in Hd.
  destruct c; try discriminate.
  intros _. destruct (Hd eq_refl) as [Hs [pre [r [d [Hin Hr]]]]].
  split; [exact Hs|]. exists pre, r, d. split; [exact Hin|].
  cbn. now rewrite Hr.
Qed.

Lemma early_stop_witness :
  exists pre r d,
    r ∈ [ann; bob]
    /\ results_file
         (send_newsletters cfg0
            (steady (fun i _ => match i with 1 => Delivered | _ => OtherFailure "timed out" end))
            (ready EmptyString [ann; bob]) true init)
       = Some (pre ++ [outcome_row r "failed" d]).
Proof.
  apply (early_stop_only_after_failure cfg0
            (steady (fun i _ => match i with 1 => Delivered | _ => OtherFailure "timed out" end))
            (ready EmptyString [ann; bob]) true init [ann; bob]).
  - reflexivity.
  - vm_compute. reflexivity.
Defined.

Lemma dispatch_finished_rows cfg world bl stop : forall recipients i st,
  snd (dispatch cfg world bl stop i recipients st) = Continue ->
  exists out,
    rows (fst (dispatch cfg world bl stop i recipients st)) = rows st ++ out
    /\ Forall2 row_for recipients out.
Proof.
  induction recipients as [|r rest IH]; intros i st.
  - intros _. exists []. cbn. rewrite app_nil_r. split; [reflexivity | constructor].
  - cbn [dispatch].
    pose proof (process_recipient_rows cfg world bl stop i r st) as Hrows.
    destruct (process_recipient cfg world bl stop i r st) as [st1 c].
    destruct c; try discriminate.
    intros H. destruct (IH (S i) st1 H) as [out [Ho Hf]].
    destruct Hrows as [row [Hrow Hfor]].
    exists (row :: out). split; [|now constructor].
    rewrite Ho, Hrow, <- app_assoc. reflexivity.
Qed.

(** X6. A run that processes the whole list (it neither stops early nor
    ends with an exception) leaves exactly one row for every recipient, in
    the order of the recipient file. *)
Theorem finished_run_covers_all cfg world env stop self recipients :
  recipients_file env = Ok recipients ->
  outcome (send_newsletters cfg world env stop self) = Finished ->
  exists out,
    results_file (send_newsletters cfg world env stop self) = Some out
    /\ Forall2 row_for recipients out.
Proof.
  intros Hrec. unfold send_newsletters.
  destruct (_read_blacklist (blacklist_file env)) as [bl|e]; [|discriminate].
  destruct (smtp_test env); [discriminate|].
  destruct (template_file env); [discriminate|].
  rewrite Hrec.
  destruct (session_open env); [discriminate|].
  pose proof (dispatch_finished_rows cfg world bl stop recipients 1 (open_results self))
    as Hd.
  destruct (dispatch cfg world bl stop 1 recipients (open_results self)) as [st' c].
  cbn [fst snd] in Hd.
  destruct c; try discriminate.
  intros _. destruct (Hd eq_refl) as [out [Ho Hf]].
  exists out. split; [|exact Hf]. cbn. now rewrite Ho.
Qed.

Lemma finished_run_witness :
  exists out,
    results_file
      (send_newsletters cfg0 (steady (always (DataError (Some 550%Z) "no such user")))
         (ready ("bob@x.org" +:+ nl) [ann; bob]) false init) = Some out
    /\ Forall2 row_for [ann; bob] out.
Proof.
  apply (finished_run_covers_all cfg0
           (steady (always (DataError (Some 550%Z) "no such user")))
           (ready ("bob@x.org" +:+ nl) [ann; bob]) false init [ann; bob]).
  - reflexivity.
  - vm_compute. reflexivity.
Defined.

(** ** The batch counter *)

Lemma rate_limit_range cfg now st :
  (0 <= sent_count st)%Z ->
  (0 <= sent_count (_rate_limit cfg now st)
   /\ sent_count (_rate_limit cfg now st) + 1 <= Z.max (emails_per_batch cfg) 1)%Z.
Proof.
  intros H0. unfold _rate_limit.
  destruct (emails_per_batch cfg <=? sent_count st)%Z eqn:E.
  - cbn. lia.
  - apply Z.leb_gt in E. destruct (Qltb _ _); cbn; lia.
Qed.

Lemma attempt_body_range cfg world stop i r a st :
  counter_in_range cfg st ->
  counter_in_range cfg (fst (fst (attempt_body cfg world stop i r a st))).
Proof.
  intros [H0 _]. unfold counter_in_range.
  destruct (rate_limit_range cfg (clock_rate_limit world i a) st H0) as [Hl Hu].
  rewrite attempt_body_eq.
  assert (Hs : sent_count (at_send cfg world i r a st) =
               sent_count (_rate_limit cfg (clock_rate_limit world i a) st))
    by reflexivity.
  destruct (send_message world i a) as [|m|info|code m|m].
  - cbn [fst sent_count record_success writerow]. rewrite Hs. lia.
  - rewrite handle_disconnect_count, Hs. lia.
  - rewrite handle_rejection_count, Hs. lia.
  - rewrite handle_rejection_count, Hs. lia.
  - rewrite handle_exception_count, Hs. lia.
Qed.

Lemma attempt_loop_range cfg world stop i r : forall n a st,
  counter_in_range cfg st ->
  counter_in_range cfg (fst (fst (attempt_loop cfg world stop i r n a st))).
Proof.
  induction n as [|n IH]; intros a st H; [exact H|].
  cbn [attempt_loop].
  pose proof (attempt_body_range cfg world stop i r a st H) as Hb.
  destruct (attempt_body cfg world stop i r a st) as [[st1 fl] ex].
  cbn [fst] in Hb. destruct ex; try exact Hb. now apply IH.
Qed.

Lemma process_recipient_range cfg world bl stop i r st :
  counter_in_range cfg st ->
  counter_in_range cfg (fst (process_recipient cfg world bl stop i r st)).
Proof.
  intros H. rewrite retries_report_unreachable.
  destruct (bool_decide _); [exact H|].
  pose proof (attempt_loop_range cfg world stop i r retries 0 st H) as Hl.
  destruct (attempt_loop cfg world stop i r retries 0 st) as [[st' fl] ex].
  destruct ex; exact Hl.
Qed.

Lemma dispatch_range cfg world bl stop : forall recipients i st,
  counter_in_range cfg st ->
  counter_in_range cfg (fst (dispatch cfg world bl stop i recipients st)).
Proof.
  induction recipients as [|r rest IH]; intros i st H; [exact H|].
  cbn [dispatch].
  pose proof (process_recipient_range cfg world bl stop i r st H) as Hp.
  destruct (process_recipient cfg world bl stop i r st) as [st1 c].
  destruct c; try exact Hp. now apply IH.
Qed.

(** X7. The batch counter keeps its range through a whole run: it is never
    negative and never exceeds [emails_per_batch] (1, for a batch size
    below 1). No more than a batch is sent between two batch pauses. *)
Theorem counter_stays_in_range cfg world env stop self :
  counter_in_range cfg self ->
  counter_in_range cfg (final (send_newsletters cfg world env stop self)).
Proof.
  intros H. unfold send_newsletters.
  destruct (_read_blacklist (blacklist_file env)) as [bl|e]; [|exact H].
  destruct (smtp_test env); [exact H|].
  destruct (template_file env); [exact H|].
  destruct (recipients_file env) as [recipients|e]; [|exact H].
  destruct (session_open env); [exact H|].
  pose proof (dispatch_range cfg world bl stop recipients 1 (open_results self) H) as Hd.
  destruct (dispatch cfg world bl stop 1 recipients (open_results self)) as [st' c].
  destruct c; exact Hd.
Qed.

Lemma counter_range_witness :
  counter_in_range cfg0
    (final (send_newsletters cfg0 (steady (always Delivered))
              (ready EmptyString [ann; bob]) true init)).
Proof.
  apply counter_stays_in_range. unfold counter_in_range. cbn. lia.
Defined.

Lemma cooldowns_app t1 t2 : cooldowns (t1 ++ t2) = cooldowns t1 + cooldowns t2.
Proof. unfold cooldowns. now rewrite List.filter_app, length_app. Qed.

(** A recipient that is not suppressed and whose first attempt is
    delivered. *)
Lemma delivered_first_try cfg world bl stop i r st :
  ~ suppressed bl r -> send_message world i 0 = Delivered ->
  process_recipient cfg world bl stop i r st =
    (record_success (clock_sent world i 0) r
       (writerow (outcome_row r "success" EmptyString) (at_send cfg world i r 0 st)),
     Continue).
Proof.
  intros Hns Hs. unfold process_recipient.
  rewrite (not_suppressed _ _ Hns). cbn [retries attempt_loop].
  rewrite attempt_body_eq, Hs. reflexivity.
Qed.

(** X8. Deliveries that fit into the current batch run without a batch
    pause: when the recipients are not suppressed, each is delivered at the
    first attempt and the batch has room for all of them, the loop
    processes them all, every one gets the row [success], the batch counter
    grows by their number, and no batch pause is slept. *)
Theorem batch_fills_without_pause cfg world bl stop : forall recipients i st,
  Forall (fun r => ~ suppressed bl r) recipients ->
  (forall j, j < length recipients -> send_message world (i + j) 0 = Delivered) ->
  (sent_count st + Z.of_nat (length recipients) <= emails_per_batch cfg)%Z ->
  exists st',
    dispatch cfg world bl stop i recipients st = (st', Continue)
    /\ sent_count st' = (sent_count st + Z.of_nat (length recipients))%Z
    /\ rows st' = rows st ++ map (fun r => outcome_row r "success" EmptyString) recipients
    /\ cooldowns (trace st') = cooldowns (trace st).
Proof.
  induction recipients as [|r rest IH]; intros i st Hns Hsend Hroom.
  - exists st. cbn. rewrite app_nil_r. repeat split; try reflexivity; lia.
  - inversion Hns as [|r' rest' Hr Hrest]; subst.
    cbn [length] in Hroom, Hsend.
    assert (Hs0 : send_message world i 0 = Delivered).
    { rewrite <- (Nat.add_0_r i). apply Hsend. lia. }
    cbn [dispatch]. rewrite (delivered_first_try cfg world bl stop i r st Hr Hs0).
    assert (Hrl : _rate_limit cfg (clock_rate_limit world i 0) st =
                  if Qltb (clock_rate_limit world i 0 - last_send_time st)
                       (delay_between_emails cfg)
                  then log (Sleep Spacing
                              (delay_between_emails cfg
                               - (clock_rate_limit world i 0 - last_send_time st))) st
                  else st).
    { apply rate_limit_spacing. lia. }
    set (st1 := record_success (clock_sent world i 0) r
                  (writerow (outcome_row r "success" EmptyString)
                     (at_send cfg world i r 0 st))).
    assert (Hc : sent_count st1 = (sent_count st + 1)%Z).
    { subst st1. unfold at_send. cbn [sent_count record_success writerow log].
      rewrite Hrl. now destruct (Qltb _ _). }
    assert (Hrows : rows st1 = rows st ++ [outcome_row r "success" EmptyString]).
    { subst st1. cbn [rows record_success writerow]. now rewrite at_send_rows. }
    assert (Ht : cooldowns (trace st1) = cooldowns (trace st)).
    { subst st1. unfold at_send. cbn [trace record_success writerow log].
      rewrite Hrl. destruct (Qltb _ _); cbn [trace log];
        rewrite !cooldowns_app; cbn; lia. }
    destruct (IH (S i) st1 Hrest) as [st' [Hd [Hc' [Hr' Ht']]]].
    + intros j Hj. replace (S i + j) with (i + S j) by lia. apply Hsend. lia.
    + lia.
    + exists st'. split; [exact Hd|]. cbn [length map]. split; [lia|]. split.
      * rewrite Hr', Hrows, <- app_assoc. reflexivity.
      * lia.
Qed.

Lemma batch_fills_witness :
  exists st',
    dispatch cfg0 (steady (always Delivered)) ∅ true 1 [ann; bob] init = (st', Continue)
    /\ sent_count st' = 2%Z.
Proof.
  destruct (batch_fills_without_pause cfg0 (steady (always Delivered)) ∅ true
              [ann; bob] 1 init)
    as [st' [Hd [Hc _]]].
  - repeat constructor; not_suppressed_in_empty.
  - intros j Hj. reflexivity.
  - cbn. lia.
  - exists st'. split; [exact Hd | exact Hc].
Defined.

(** X9. A delivery that finds the batch full is preceded by the whole batch
    pause, and starts the next batch: the trace gets the pause's one-second
    sleeps and then the send, and the batch counter is left at 1. *)
Theorem full_batch_pauses_first cfg world bl stop i r st :
  ~ suppressed bl r -> send_message world i 0 = Delivered ->
  (emails_per_batch cfg <= sent_count st)%Z ->
  exists st',
    process_recipient cfg world bl stop i r st = (st', Continue)
    /\ sent_count st' = 1%Z
    /\ trace st' = trace st ++ countdown (batch_delay cfg) ++ [SendAttempt (email r)]
    /\ rows st' = rows st ++ [outcome_row r "success" EmptyString].
Proof.
  intros Hns Hs Hfull.
  rewrite (delivered_first_try cfg world bl stop i r st Hns Hs).
  eexists. split; [reflexivity|].
  unfold at_send. rewrite (rate_limit_batch _ _ _ Hfull).
  cbn [sent_count trace rows record_success writerow log reset_sent_count log_all].
  rewrite <- app_assoc. auto.
Qed.

Lemma full_batch_witness :
  exists st',
    process_recipient cfg0 (steady (always Delivered)) ∅ true 1 ann
      {| sent_count := 50; last_send_time := 90; last_successful_email := None;
         rows := []; trace := [] |} = (st', Continue)
    /\ sent_count st' = 1%Z
    /\ cooldowns (trace st') = 60.
Proof.
  destruct (full_batch_pauses_first cfg0 (steady (always Delivered)) ∅ true 1 ann
      {| sent_count := 50; last_send_time := 90; last_successful_email := None;
         rows := []; trace := [] |})
    as [st' [Hp [Hc [Ht _]]]].
  - not_suppressed_in_empty.
  - reflexivity.
  - cbn. lia.
  - exists st'. split; [exact Hp|]. split; [exact Hc|]. rewrite Ht. reflexivity.
Defined.

(** ** The rate limiter's sleeps *)

(** X10. The rate limiter only sleeps: it adds waits of a positive duration
    to the trace (so [time.sleep] never gets a negative argument), and
    leaves the rows, the time of the last send and the last successful
    address alone. When the clock is not behind the last send, a spacing
    wait is at most [delay_between_emails]. *)
Theorem rate_limit_only_sleeps cfg now st :
  exists added,
    trace (_rate_limit cfg now st) = trace st ++ added
    /\ Forall positive_wait added
    /\ rows (_rate_limit cfg now st) = rows st
    /\ last_send_time (_rate_limit cfg now st) = last_send_time st
    /\ last_successful_email (_rate_limit cfg now st) = last_successful_email st
    /\ ((sent_count st < emails_per_batch cfg)%Z ->
        (last_send_time st <= now)%Q ->
        Forall (fun e => exists d, e = Sleep Spacing d
                                   /\ (d <= delay_between_emails cfg)%Q) added).
Proof.
  unfold _rate_limit.
  destruct (emails_per_batch cfg <=? sent_count st)%Z eqn:E.
  - exists (countdown (batch_delay cfg)). cbn.
    repeat split; auto.
    + unfold countdown. induction (Z.to_nat (batch_delay cfg)); simpl;
        constructor; auto. reflexivity.
    + intros Hlt. apply Z.leb_le in E. lia.
  - destruct (Qltb _ _) eqn:Eq.
    + eexists. cbn. repeat split; auto.
      * constructor; [|constructor].
        change (0 < delay_between_emails cfg + - (now - last_send_time st))%Q.
        apply (proj1 (Qlt_minus_iff _ _)). now apply Qltb_lt.
      * intros _ Hclock. constructor; [|constructor].
        eexists. split; [reflexivity|].
        apply (proj2 (Qle_minus_iff _ _)).
        assert (Heq : (delay_between_emails cfg
                       + - (delay_between_emails cfg - (now - last_send_time st))
                       == now + - last_send_time st)%Q) by ring.
        rewrite Heq. now apply (proj1 (Qle_minus_iff _ _)).
    + exists []. cbn. rewrite app_nil_r. repeat split; auto.
Qed.

(** * Further properties of the loaders *)

(** ** The dictionaries of [csv.DictReader] *)

Lemma zip_keys_lookup_notin (l : list (string * string)) :
  forall (d : gmap string (option string)) k,
    ~ In k (map fst l) ->
    foldl (fun d kv => <[ fst kv := Some (snd kv) ]> d) d l !! k = d !! k.
Proof.
  induction l as [|[k' v] l IH]; intros d k Hk; [reflexivity|].
  simpl in Hk. cbn [foldl]. rewrite IH by tauto.
  apply lookup_insert_ne. cbn. tauto.
Qed.

Lemma zip_keys_lookup_in (l : list (string * string)) :
  forall (d : gmap string (option string)) k,
    In k (map fst l) ->
    is_Some (foldl (fun d kv => <[ fst kv := Some (snd kv) ]> d) d l !! k).
Proof.
  induction l as [|[k' v] l IH]; intros d k Hk; [destruct Hk|].
  cbn [foldl].
  destruct (in_dec string_dec k (map fst l)) as [Hin|Hnin].
  - now apply IH.
  - rewrite zip_keys_lookup_notin by exact Hnin.
    destruct Hk as [Hk|Hk]; [|contradiction].
    cbn in Hk. subst k'. cbn. rewrite lookup_insert_eq. eauto.
Qed.

Lemma rest_keys_lookup_notin (l : list string) :
  forall (d : gmap string (option string)) k,
    ~ In k l ->
    foldl (fun d k' => <[ k' := None ]> d) d l !! k = d !! k.
Proof.
  induction l as [|k' l IH]; intros d k Hk; [reflexivity|].
  simpl in Hk. cbn [foldl]. rewrite IH by tauto.
  apply lookup_insert_ne. tauto.
Qed.

Lemma rest_keys_lookup_in (l : list string) :
  forall (d : gmap string (option string)) k,
    In k l ->
    foldl (fun d k' => <[ k' := None ]> d) d l !! k = Some None.
Proof.
  induction l as [|k' l IH]; intros d k Hk; [destruct Hk|].
  cbn [foldl].
  destruct (in_dec string_dec k l) as [Hin|Hnin].
  - now apply IH.
  - rewrite rest_keys_lookup_notin by exact Hnin.
    destruct Hk as [Hk|Hk]; [|contradiction].
    subst k'. apply lookup_insert_eq.
Qed.

Lemma rest_keys_lookup_some (l : list string) :
  forall (d : gmap string (option string)) k,
    is_Some (d !! k) ->
    is_Some (foldl (fun d k' => <[ k' := None ]> d) d l !! k).
Proof.
  intros d k Hs.
  destruct (in_dec string_dec k l) as [Hin|Hnin].
  - rewrite rest_keys_lookup_in by exact Hin. eauto.
  - now rewrite rest_keys_lookup_notin by exact Hnin.
Qed.

Lemma combine_keys (l1 : list string) : forall (l2 : list string),
  map fst (combine l1 l2) = firstn (length l2) l1.
Proof.
  induction l1 as [|a l1 IH]; intros [|b l2]; simpl; try reflexivity.
  now rewrite IH.
Qed.

(** Every dictionary [csv.DictReader] builds has all the names of the
    header as keys, whatever the length of the row. *)
Lemma dict_row_keys fieldnames row k :
  k ∈ fieldnames -> is_Some (Csv.dict_row fieldnames row !! k).
Proof.
  intros Hk. apply list_elem_of_In in Hk. unfold Csv.dict_row.
  rewrite <- (firstn_skipn (length row) fieldnames) in Hk.
  apply in_app_or in Hk. destruct Hk as [Hk|Hk].
  - apply rest_keys_lookup_some, zip_keys_lookup_in.
    now rewrite combine_keys.
  - rewrite rest_keys_lookup_in by exact Hk. eauto.
Qed.

Lemma combine_app_same (a1 a2 : list string) (b1 b2 : list string) :
  length a1 = length b1 ->
  combine (a1 ++ a2) (b1 ++ b2) = combine a1 b1 ++ combine a2 b2.
Proof.
  revert b1. induction a1 as [|x a1 IH]; intros [|y b1] H; simpl in *;
    try discriminate; [reflexivity|].
  f_equal. apply IH. lia.
Qed.

Lemma in_firstn (x : string) n l : In x (firstn n l) -> In x l.
Proof.
  intros H. rewrite <- (firstn_skipn n l). apply in_or_app. now left.
Qed.

Lemma in_skipn (x : string) n l : In x (skipn n l) -> In x l.
Proof.
  intros H. rewrite <- (firstn_skipn n l). apply in_or_app. now right.
Qed.

(** [row.get('email')] reads the last column the header names [email]:
    when no later column has that name, it is the row's cell at that
    column's position, and [None] when the row is too short to have one. *)
Lemma dict_get_last_email before after row :
  "email" ∉ after ->
  Csv.dict_get (Csv.dict_row (before ++ "email" :: after) row) "email"
  = row !! length before.
Proof.
  intros Ha.
  rewrite list_elem_of_In in Ha.
  unfold Csv.dict_get, Csv.dict_row.
  destruct (Nat.lt_ge_cases (length before) (length row)) as [Hlt|Hge].
  - (* the row has the cell *)
    destruct (lookup_lt_is_Some_2 row (length before) Hlt) as [cell Hcell].
    rewrite Hcell.
    pose proof (take_drop_middle row (length before) cell Hcell) as Hrow.
    assert (Hlen : length before = length (take (length before) row)).
    { rewrite length_take. lia. }
    rewrite rest_keys_lookup_notin.
    + rewrite <- Hrow at 1.
      rewrite (combine_app_same before ("email" :: after) _ _ Hlen).
      rewrite foldl_app. cbn [combine foldl fst snd].
      rewrite zip_keys_lookup_notin.
      * now rewrite lookup_insert_eq.
      * rewrite combine_keys. intros Hin. apply Ha.
        eapply in_firstn, Hin.
    + rewrite skipn_app. intros Hin. apply in_app_or in Hin.
      destruct Hin as [Hin|Hin].
      * rewrite skipn_all2 in Hin by lia. destruct Hin.
      * replace (length row - length before) with (S (length row - S (length before)))
          in Hin by lia.
        cbn [skipn] in Hin. apply Ha. eapply in_skipn, Hin.
  - (* the row is too short *)
    rewrite (lookup_ge_None_2 row (length before) Hge).
    rewrite rest_keys_lookup_in; [reflexivity|].
    rewrite skipn_app. apply in_or_app. right.
    replace (length row - length before) with 0 by lia. now left.
Qed.

(** ** The recipient file *)

(** X11. When the header of the recipient file names a column [email],
    every row read from it has the key [email], whatever its length (a row
    too short for the column holds [None] there): [recipient['email']]
    never raises a [KeyError]. There are no more recipients than data
    rows. *)
Theorem recipients_have_email_key text hdr body ds :
  _read_recipients (Content text) = Ok ds ->
  Csv.reader (translate_newlines text) = Some (hdr :: body) ->
  "email" ∈ hdr ->
  Forall (fun d => is_Some (d !! "email")) ds /\ length ds <= length body.
Proof.
  unfold _read_recipients. intros Hds Hrows Hk.
  rewrite Hrows in Hds. injection Hds as <-.
  cbn [Csv.dict_reader]. split.
  - apply Forall_forall. intros d Hd. apply list_elem_of_In in Hd.
    apply in_map_iff in Hd. destruct Hd as [row [<- _]].
    now apply dict_row_keys.
  - rewrite length_map. apply filter_length_le.
Qed.

Lemma recipients_key_witness :
  Forall (fun d : gmap string (option string) => is_Some (d !! "email"))
    (Csv.dict_reader [["name"; "email"]; ["Ann"]; []; ["Bob"; "bob@x.org"]])
  /\ length (Csv.dict_reader [["name"; "email"]; ["Ann"]; []; ["Bob"; "bob@x.org"]]) <= 3.
Proof.
  apply (recipients_have_email_key
           ("name,email" +:+ String Csv.CR nl +:+ "Ann" +:+ nl +:+ nl
            +:+ "Bob,bob@x.org" +:+ nl)
           ["name"; "email"] [["Ann"]; []; ["Bob"; "bob@x.org"]]).
  - vm_compute. reflexivity.
  - vm_compute. reflexivity.
  - apply list_elem_of_In. right. left. reflexivity.
Defined.

(** X12. The address the engine sees for a recipient is the cell of the
    last column the header names [email]: with no later column of that
    name, the recipients read from the file are, in order, the non-empty
    data rows, each with its cell at that column's position, or [None]
    when the row is too short to have one. *)
Theorem recipient_email_is_column text before after body ds :
  _read_recipients (Content text) = Ok ds ->
  Csv.reader (translate_newlines text) = Some ((before ++ "email" :: after) :: body) ->
  "email" ∉ after ->
  map recipient_of_row ds
  = map (fun row => {| email := row !! length before |})
        (List.filter (fun row => negb (Csv.is_empty_row row)) body).
Proof.
  unfold _read_recipients. intros Hds Hrows Ha.
  rewrite Hrows in Hds. injection Hds as <-.
  cbn [Csv.dict_reader]. rewrite map_map. apply map_ext.
  intros row. unfold recipient_of_row.
  now rewrite (dict_get_last_email before after row Ha).
Qed.

Lemma recipient_email_witness :
  map recipient_of_row
    (Csv.dict_reader [["name"; "email"]; ["Ann"]; []; ["Bob"; "bob@x.org"]])
  = [ {| email := None |}; {| email := Some "bob@x.org" |} ].
Proof.
  apply (recipient_email_is_column
           ("name,email" +:+ nl +:+ "Ann" +:+ nl +:+ nl +:+ "Bob,bob@x.org" +:+ nl)
           ["name"] [] [["Ann"]; []; ["Bob"; "bob@x.org"]]).
  - vm_compute. reflexivity.
  - vm_compute. reflexivity.
  - intros H. apply list_elem_of_In in H. destruct H.
Defined.

(** ** What the loader loads *)

Lemma nonempty_true s : Csv.nonempty s = true <-> s <> EmptyString.
Proof. destruct s; simpl; split; congruence. Qed.

Lemma read_headerless_from rows : forall (acc : gset string) x,
  x ∈ foldl (fun blacklisted row =>
               match row with
               | [] => blacklisted
               | cell :: _ =>
                   let email := normalize (Some cell) in
                   if String.eqb email "email" then blacklisted
                   else if Csv.nonempty email then {[ email ]} ∪ blacklisted
                   else blacklisted
               end) acc rows
  <-> x ∈ acc \/ exists cell rest,
        In (cell :: rest) rows /\ x = normalize (Some cell)
        /\ x <> EmptyString /\ x <> "email".
Proof.
  induction rows as [|row rows IH]; intros acc x; cbn [foldl].
  - split; [now left|]. intros [H|[cell [rest [[] _]]]]. exact H.
  - rewrite IH. clear IH. split.
    + intros [H|[cell [rest [Hin Hx]]]].
      * destruct row as [|cell rest]; [now left|]. cbn zeta in H.
        destruct (String.eqb _ "email") eqn:Ee; [now left|].
        destruct (Csv.nonempty _) eqn:En; [|now left].
        apply elem_of_union in H. destruct H as [H|H]; [|now left].
        apply elem_of_singleton in H. right. exists cell, rest.
        split; [now left|]. split; [exact H|]. subst x. split.
        -- now apply nonempty_true.
        -- now apply String.eqb_neq.
      * right. exists cell, rest. split; [now right | exact Hx].
    + intros [H|[cell [rest [[Hin|Hin] [Hx [Hne Hnh]]]]]].
      * left. destruct row as [|cell rest]; [exact H|]. cbn zeta.
        destruct (String.eqb _ "email"); [exact H|].
        destruct (Csv.nonempty _); [|exact H].
        apply elem_of_union. now right.
      * left. subst row. cbn zeta. rewrite <- Hx.
        apply String.eqb_neq in Hnh. rewrite Hnh.
        apply nonempty_true in Hne. rewrite Hne.
        apply elem_of_union. left. now apply elem_of_singleton.
      * right. exists cell, rest. auto.
Qed.

Lemma read_headered_from (ds : list (gmap string (option string))) :
  forall (acc : gset string) x,
  x ∈ foldl (fun blacklisted row =>
               let email := normalize (Csv.dict_get row "email") in
               if Csv.nonempty email then {[ email ]} ∪ blacklisted else blacklisted)
            acc ds
  <-> x ∈ acc \/ exists d,
        In d ds /\ x = normalize (Csv.dict_get d "email") /\ x <> EmptyString.
Proof.
  induction ds as [|d ds IH]; intros acc x; cbn [foldl].
  - split; [now left|]. intros [H|[d [[] _]]]. exact H.
  - rewrite IH. clear IH. cbn zeta. split.
    + intros [H|[d' [Hin Hx]]].
      * destruct (Csv.nonempty _) eqn:En; [|now left].
        apply elem_of_union in H. destruct H as [H|H]; [|now left].
        apply elem_of_singleton in H. right. exists d.
        split; [now left|]. split; [exact H|]. subst x. now apply nonempty_true.
      * right. exists d'. split; [now right | exact Hx].
    + intros [H|[d' [[Hin|Hin] [Hx Hne]]]].
      * left. destruct (Csv.nonempty _); [|exact H].
        apply elem_of_union. now right.
      * left. subst d'. rewrite <- Hx.
        apply nonempty_true in Hne. rewrite Hne.
        apply elem_of_union. left. now apply elem_of_singleton.
      * right. exists d'. auto.
Qed.

(** X13. On the headerless path the loader returns exactly the cleaned
    first cells of the file's rows: an address is in the set if and only if
    it is the trimmed, lowercased first cell of some row, is not empty and
    is not the word [email]. *)
Theorem headerless_set_exact text rows bl x :
  _read_blacklist (Content text) = Ok bl ->
  Csv.reader text = Some rows ->
  has_header (Csv.readline text) = false ->
  (x ∈ bl <->
   exists cell rest,
     In (cell :: rest) rows /\ x = normalize (Some cell)
     /\ x <> EmptyString /\ x <> "email").
Proof.
  unfold _read_blacklist. intros Hbl Hrows Hh.
  rewrite Hrows, Hh in Hbl. injection Hbl as <-.
  unfold read_headerless. rewrite read_headerless_from.
  split; [|now right]. intros [H|H]; [|exact H].
  now apply not_elem_of_empty in H.
Qed.

Lemma headerless_set_witness :
  "ann@x.org" ∈ ({[ "bob@x.org" ]} ∪ {[ "ann@x.org" ]} : gset string).
Proof.
  apply (headerless_set_exact (" Bob@x.org" +:+ nl +:+ "ANN@X.ORG,x" +:+ nl)
           [[" Bob@x.org"]; ["ANN@X.ORG"; "x"]]).
  - vm_compute. reflexivity.
  - vm_compute. reflexivity.
  - vm_compute. reflexivity.
  - exists "ANN@X.ORG", ["x"]. split; [right; left; reflexivity|].
    split; [reflexivity|]. split; discriminate.
Defined.

(** X14. On the headered path, with [email] the name of the header's column
    at position [length before] and of no later one, the loader returns
    exactly the cleaned cells of that column: an address is in the set if
    and only if it is the trimmed, lowercased cell some data row has at
    that position, and is not empty. *)
Theorem headered_set_exact text before after body bl x :
  _read_blacklist (Content text) = Ok bl ->
  Csv.reader text = Some ((before ++ "email" :: after) :: body) ->
  has_header (Csv.readline text) = true ->
  "email" ∉ after ->
  (x ∈ bl <->
   exists row cell,
     In row body /\ row !! length before = Some cell
     /\ x = normalize (Some cell) /\ x <> EmptyString).
Proof.
  unfold _read_blacklist. intros Hbl Hrows Hh Ha.
  rewrite Hrows, Hh in Hbl. injection Hbl as <-.
  unfold read_headered. rewrite read_headered_from.
  cbn [Csv.dict_reader]. split.
  - intros [H|[d [Hin [Hx Hne]]]]; [now apply not_elem_of_empty in H|].
    apply in_map_iff in Hin. destruct Hin as [row [Hd Hin]].
    apply filter_In in Hin. destruct Hin as [Hin _].
    subst d. rewrite (dict_get_last_email before after row Ha) in Hx.
    destruct (row !! length before) as [cell|] eqn:E.
    + exists row, cell. auto.
    + exfalso. apply Hne. rewrite Hx. reflexivity.
  - intros [row [cell [Hin [Hcell [Hx Hne]]]]]. right.
    exists (Csv.dict_row (before ++ "email" :: after) row).
    split; [|split; [|exact Hne]].
    + apply in_map. apply filter_In. split; [exact Hin|].
      destruct row; [discriminate | reflexivity].
    + now rewrite (dict_get_last_email before after row Ha), Hcell.
Qed.

Lemma headered_set_witness :
  "ann@x.org" ∈ ({[ "ann@x.org" ]} : gset string).
Proof.
  apply (headered_set_exact ("name,email" +:+ nl +:+ "Ann, Ann@X.org " +:+ nl)
           ["name"] [] [["Ann"; " Ann@X.org "]]).
  - vm_compute. reflexivity.
  - vm_compute. reflexivity.
  - vm_compute. reflexivity.
  - intros H. apply list_elem_of_In in H. destruct H.
  - exists ["Ann"; " Ann@X.org "], " Ann@X.org ".
    split; [left; reflexivity|]. split; [reflexivity|].
    split; [reflexivity | discriminate].
Defined.

(** ** From the suppression file to the loop *)

(** X15. The loader and the suppression check fit together on the
    headerless path: a recipient whose trimmed, lowercased address equals
    that of the first cell of some row of the suppression file (and is
    neither empty nor the word [email]) is skipped as blacklisted, with no
    send attempt. *)
Theorem listed_recipient_is_skipped cfg world stop i r st text rows bl cell rest :
  _read_blacklist (Content text) = Ok bl ->
  Csv.reader text = Some rows ->
  has_header (Csv.readline text) = false ->
  In (cell :: rest) rows ->
  normalize (email r) = normalize (Some cell) ->
  normalize (email r) <> EmptyString ->
  normalize (email r) <> "email" ->
  process_recipient cfg world bl stop i r st =
    (writerow {| address := Py.strip (email_cell r);
                 status := "skipped_blacklist";
                 detail := "blacklisted" |} st, Continue).
Proof.
  intros Hbl Hrows Hh Hin Heq Hne Hnh.
  assert (Hx : normalize (email r) ∈ bl).
  { unfold _read_blacklist in Hbl. rewrite Hrows, Hh in Hbl. injection Hbl as <-.
    unfold read_headerless. apply read_headerless_from. right.
    exists cell, rest. auto. }
  unfold process_recipient.
  change (Py.lower (Py.strip (email_cell r))) with (normalize (email r)).
  now rewrite (bool_decide_eq_true_2 _ Hx).
Qed.

Lemma listed_recipient_witness :
  process_recipient cfg0 (steady (always Delivered)) {[ "ann@x.org" ]} true 1
    (to " Ann@X.org") init
  = (writerow {| address := "Ann@X.org"; status := "skipped_blacklist";
                 detail := "blacklisted" |} init, Continue).
Proof.
  apply (listed_recipient_is_skipped cfg0 (steady (always Delivered)) true 1
           (to " Ann@X.org") init ("ann@x.org" +:+ nl) [["ann@x.org"]]
           {[ "ann@x.org" ]} "ann@x.org" []).
  - vm_compute. reflexivity.
  - vm_compute. reflexivity.
  - vm_compute. reflexivity.
  - left. reflexivity.
  - reflexivity.
  - discriminate.
  - discriminate.
Defined.

(** X18. Whatever the suppression file holds, every address the loader
    returns is non-empty, lowercase and free of surrounding whitespace, so
    the engine's trimmed, lowercased comparison can meet it. *)
Theorem loaded_addresses_are_normal f bl x :
  _read_blacklist f = Ok bl -> x ∈ bl ->
  x <> EmptyString /\ Py.lower x = x /\ Py.strip x = x.
Proof.
  destruct f as [m|m|text]; try discriminate.
  unfold _read_blacklist. destruct (Csv.reader text) as [rows|]; [|discriminate].
  intros [= <-]. destruct (has_header _).
  - apply read_headered_clean.
  - intros Hx. now destruct (read_headerless_clean rows x Hx).
Qed.

Lemma loaded_addresses_witness :
  "ann@x.org" <> EmptyString
  /\ Py.lower "ann@x.org" = "ann@x.org" /\ Py.strip "ann@x.org" = "ann@x.org".
Proof.
  apply (loaded_addresses_are_normal
           (Content ("name,email" +:+ nl +:+ "Ann, Ann@X.org " +:+ nl
                     +:+ "Nobody" +:+ nl)) {[ "ann@x.org" ]}).
  - vm_compute. reflexivity.
  - apply elem_of_singleton. reflexivity.
Defined.

(** * Further properties of whole runs *)

(** ** Runs without [stop_on_error] *)

Lemma attempt_body_no_disconnect cfg world i r a st :
  is_disconnect (send_message world i a) = false ->
  snd (attempt_body cfg world false i r a st) = Break.
Proof.
  intros Hd. rewrite attempt_body_eq.
  destruct (send_message world i a) as [|m|info|code m|m]; try discriminate.
  - reflexivity.
  - unfold handle_rejection. destruct (Py.code_is _ 556); [reflexivity|].
    destruct (Py.contains _ _); reflexivity.
  - unfold handle_rejection. destruct (Py.code_is _ 556); [reflexivity|].
    destruct (Py.contains _ _); reflexivity.
  - unfold handle_exception. destruct (Py.contains _ _); reflexivity.
Qed.

Lemma process_no_disconnect cfg world bl i r st :
  (forall a, is_disconnect (send_message world i a) = false) ->
  snd (process_recipient cfg world bl false i r st) = Continue.
Proof.
  intros Hd. rewrite retries_report_unreachable.
  destruct (bool_decide _); [reflexivity|].
  cbn [retries attempt_loop].
  pose proof (attempt_body_no_disconnect cfg world i r 0 st (Hd 0)) as Hb.
  destruct (attempt_body cfg world false i r 0 st) as [[st' fl] ex].
  cbn [snd] in Hb. subst ex. reflexivity.
Qed.

Lemma dispatch_no_disconnect cfg world bl : forall recipients i st,
  (forall i a, is_disconnect (send_message world i a) = false) ->
  snd (dispatch cfg world bl false i recipients st) = Continue.
Proof.
  induction recipients as [|r rest IH]; intros i st Hd; [reflexivity|].
  cbn [dispatch].
  pose proof (process_no_disconnect cfg world bl i r st (Hd i)) as Hp.
  destruct (process_recipient cfg world bl false i r st) as [st1 c].
  cbn [snd] in Hp. subst c. now apply IH.
Qed.

(** X16. With [stop_on_error] unset, a run whose start-up succeeds and
    whose connection is never lost processes the whole list, whatever
    rejections and other failures the sends meet. *)
Theorem run_without_stop_finishes cfg world env self bl recipients :
  _read_blacklist (blacklist_file env) = Ok bl ->
  smtp_test env = None ->
  template_file env = None ->
  recipients_file env = Ok recipients ->
  session_open env = None ->
  (forall i a, is_disconnect (send_message world i a) = false) ->
  outcome (send_newsletters cfg world env false self) = Finished.
Proof.
  intros Hbl Ht Htpl Hrec Hopen Hd. unfold send_newsletters.
  rewrite Hbl, Ht, Htpl, Hrec, Hopen.
  pose proof (dispatch_no_disconnect cfg world bl recipients 1 (open_results self) Hd)
    as Hc.
  destruct (dispatch cfg world bl false 1 recipients (open_results self)) as [st' c].
  cbn [snd] in Hc. subst c. reflexivity.
Qed.

Lemma run_without_stop_witness :
  outcome (send_newsletters cfg0 (steady (always (OtherFailure "timed out")))
             (ready EmptyString [ann; bob]) false init) = Finished.
Proof.
  apply (run_without_stop_finishes cfg0 (steady (always (OtherFailure "timed out")))
           (ready EmptyString [ann; bob]) init ∅ [ann; bob]);
    try reflexivity.
Defined.

(** ** Runs with [stop_on_error] *)

Lemma handle_rejection_kept r code message st :
  snd (handle_rejection true r code message st) = Break ->
  exists row,
    rows (fst (fst (handle_rejection true r code message st))) = rows st ++ [row]
    /\ status row <> "failed".
Proof.
  unfold handle_rejection.
  destruct (Py.code_is code 556).
  { intros _. eexists. split; [reflexivity | discriminate]. }
  destruct (Py.contains _ _); [|discriminate].
  intros _. eexists. split; [reflexivity | discriminate].
Qed.

Lemma handle_exception_kept r msg st :
  snd (handle_exception true r msg st) = Break ->
  exists row,
    rows (fst (fst (handle_exception true r msg st))) = rows st ++ [row]
    /\ status row <> "failed".
Proof.
  unfold handle_exception.
  destruct (Py.contains _ _); [|discriminate].
  intros _. eexists. split; [reflexivity | discriminate].
Qed.

Lemma attempt_body_kept cfg world i r a st :
  snd (attempt_body cfg world true i r a st) = Break ->
  exists row,
    rows (fst (fst (attempt_body cfg world true i r a st))) = rows st ++ [row]
    /\ status row <> "failed".
Proof.
  rewrite attempt_body_eq.
  pose proof (at_send_rows cfg world i r a st) as Hr.
  destruct (send_message world i a) as [|m|info|code m|m].
  - intros _. eexists. cbn [fst rows record_success writerow]. rewrite Hr.
    split; [reflexivity | discriminate].
  - unfold handle_disconnect. destruct (Nat.ltb a (retries - 1)); [|discriminate].
    destruct (reconnect world i a); discriminate.
  - intros H. apply handle_rejection_kept in H. now rewrite Hr in H.
  - intros H. apply handle_rejection_kept in H. now rewrite Hr in H.
  - intros H. apply handle_exception_kept in H. now rewrite Hr in H.
Qed.

Lemma attempt_loop_kept cfg world i r : forall n a st,
  a + n = retries -> 0 < n ->
  snd (attempt_loop cfg world true i r n a st) = Break ->
  exists row,
    rows (fst (fst (attempt_loop cfg world true i r n a st))) = rows st ++ [row]
    /\ status row <> "failed".
Proof.
  induction n as [|n IH]; intros a st Han Hn; [lia|].
  cbn [attempt_loop].
  pose proof (attempt_body_kept cfg world i r a st) as Hb.
  pose proof (attempt_body_rows cfg world true i r a st) as Hrows.
  destruct (attempt_body cfg world true i r a st) as [[st1 fl] ex].
  cbn [fst snd] in Hb, Hrows.
  destruct ex; try discriminate.
  - intros _. now apply Hb.
  - intros H. inversion Hrows as [Ha Hr Hex | | |]. rewrite <- Hr.
    apply IH; [lia | lia | exact H].
Qed.

Lemma process_recipient_kept cfg world bl i r st :
  snd (process_recipient cfg world bl true i r st) = Continue ->
  exists row,
    rows (fst (process_recipient cfg world bl true i r st)) = rows st ++ [row]
    /\ status row <> "failed".
Proof.
  rewrite retries_report_unreachable.
  destruct (bool_decide _).
  { intros _. eexists. split; [reflexivity | discriminate]. }
  pose proof (attempt_loop_kept cfg world i r retries 0 st eq_refl) as Hl.
  pose proof (attempt_loop_rows cfg world true i r retries 0 st eq_refl) as Hn.
  destruct (attempt_loop cfg world true i r retries 0 st) as [[st' fl] ex].
  cbn [fst snd] in Hl.
  specialize (Hn ltac:(unfold retries; lia)).
  destruct ex; try discriminate; try contradiction.
  intros _. apply Hl; [unfold retries; lia | reflexivity].
Qed.

Lemma dispatch_failed_last cfg world bl : forall recipients i st,
  exists pre tail,
    rows (fst (dispatch cfg world bl true i recipients st)) = rows st ++ pre ++ tail
    /\ Forall (fun row => status row <> "failed") pre
    /\ length tail <= 1.
Proof.
  induction recipients as [|r rest IH]; intros i st.
  - exists [], []. cbn. rewrite app_nil_r. auto.
  - cbn [dispatch].
    pose proof (process_recipient_kept cfg world bl i r st) as Hk.
    pose proof (process_recipient_rows cfg world bl true i r st) as Hrows.
    destruct (process_recipient cfg world bl true i r st) as [st1 c].
    cbn [fst snd] in Hk.
    destruct c as [| |e].
    + destruct (Hk eq_refl) as [row [Hr Hs]].
      destruct (IH (S i) st1) as [pre [tail [Hd [Hf Hl]]]].
      exists (row :: pre), tail. split; [|split; [now constructor | exact Hl]].
      rewrite Hd, Hr, <- !app_assoc. reflexivity.
    + destruct Hrows as [row [Hr _]].
      exists [], [row]. cbn. split; [exact Hr | auto].
    + exists [], []. cbn. rewrite app_nil_r. auto.
Qed.

(** X17. With [stop_on_error] set, a [failed] row can only be the last row
    of the results file: every row before the last has another status. *)
Theorem failed_row_is_last cfg world env self out :
  results_file (send_newsletters cfg world env true self) = Some out ->
  exists pre tail,
    out = pre ++ tail
    /\ Forall (fun row => status row <> "failed") pre
    /\ length tail <= 1.
Proof.
  unfold send_newsletters.
  destruct (_read_blacklist (blacklist_file env)) as [bl|e]; [|discriminate].
  destruct (smtp_test env); [discriminate|].
  destruct (template_file env); [discriminate|].
  destruct (recipients_file env) as [recipients|e]; [|discriminate].
  destruct (session_open env).
  - cbn. intros [= <-]. exists [], []. auto.
  - rewrite close_run_rows. intros [= <-].
    destruct (dispatch_failed_last cfg world bl recipients 1 (open_results self))
      as [pre [tail [Hd [Hf Hl]]]].
    exists pre, tail. split; [exact Hd | auto].
Qed.

Lemma failed_row_witness :
  exists pre tail,
    [ {| address := "ann@x.org"; status := "success"; detail := EmptyString |};
      {| address := "bob@x.org"; status := "failed"; detail := "timed out" |} ]
    = pre ++ tail
    /\ Forall (fun row => status row <> "failed") pre
    /\ length tail <= 1.
Proof.
  apply (failed_row_is_last cfg0
           (steady (fun i _ => match i with 1 => Delivered | _ => OtherFailure "timed out" end))
           (ready EmptyString [ann; bob; ann]) init).
  vm_compute. reflexivity.
Defined.

(** * The results file, row by row *)

Lemma outcome_row_attempt r st d : In st send_statuses -> attempt_row r (outcome_row r st d).
Proof. intros H. split; [reflexivity | exact H]. Qed.

Lemma handle_rejection_writes stop r code message st0 st :
  rows st = rows st0 ->
  (snd (handle_rejection stop r code message st) = Break
   \/ snd (handle_rejection stop r code message st) = ReturnNow)
  /\ exists row,
       rows (fst (fst (handle_rejection stop r code message st))) = rows st0 ++ [row]
       /\ attempt_row r row.
Proof.
  intros Hr. unfold handle_rejection.
  destruct (Py.code_is code 556).
  { split; [now left|]. eexists. split; [cbn; now rewrite Hr|].
    apply outcome_row_attempt. cbn. tauto. }
  destruct (Py.contains _ _).
  { split; [now left|]. eexists. split; [cbn; now rewrite Hr|].
    apply outcome_row_attempt. cbn. tauto. }
  destruct stop.
  - split; [now right|]. eexists. split; [cbn; now rewrite Hr|].
    apply outcome_row_attempt. cbn. tauto.
  - split; [now left|]. eexists. split; [cbn; now rewrite Hr|].
    apply outcome_row_attempt. cbn. tauto.
Qed.

Lemma handle_exception_writes stop r msg st0 st :
  rows st = rows st0 ->
  (snd (handle_exception stop r msg st) = Break
   \/ snd (handle_exception stop r msg st) = ReturnNow)
  /\ exists row,
       rows (fst (fst (handle_exception stop r msg st))) = rows st0 ++ [row]
       /\ attempt_row r row.
Proof.
  intros Hr. unfold handle_exception.
  destruct (Py.contains _ _).
  { split; [now left|]. eexists. split; [cbn; now rewrite Hr|].
    apply outcome_row_attempt. cbn. tauto. }
  destruct stop.
  - split; [now right|]. eexists. split; [cbn; now rewrite Hr|].
    apply outcome_row_attempt. cbn. tauto.
  - split; [now left|]. eexists. split; [cbn; now rewrite Hr|].
    apply outcome_row_attempt. cbn. tauto.
Qed.

(** One attempt either leaves the rows alone (a retry, an exception) or
    adds one row of the attempt loop. *)
Lemma attempt_body_writes cfg world stop i r a st :
  match attempt_body cfg world stop i r a st with
  | (st', _, NextAttempt) => rows st' = rows st /\ a < retries - 1
  | (st', _, RaiseNow _) => rows st' = rows st
  | (st', _, _) => exists row, rows st' = rows st ++ [row] /\ attempt_row r row
  end.
Proof.
  rewrite attempt_body_eq.
  pose proof (at_send_rows cfg world i r a st) as Hr.
  destruct (send_message world i a) as [|m|info|code m|m].
  - eexists. split; [cbn; now rewrite Hr|]. apply outcome_row_attempt. cbn. tauto.
  - unfold handle_disconnect. destruct (Nat.ltb a (retries - 1)) eqn:E.
    + apply Nat.ltb_lt in E. destruct (reconnect world i a); cbn; auto.
    + exact Hr.
  - destruct (handle_rejection_writes stop r (fst (refused_code_message info))
                (snd (refused_code_message info)) st _ Hr) as [Hex Hw].
    destruct (handle_rejection _ _ _ _ _) as [[st' fl] ex]. cbn [fst snd] in *.
    destruct Hex as [-> | ->]; exact Hw.
  - destruct (handle_rejection_writes stop r code m st _ Hr) as [Hex Hw].
    destruct (handle_rejection _ _ _ _ _) as [[st' fl] ex]. cbn [fst snd] in *.
    destruct Hex as [-> | ->]; exact Hw.
  - destruct (handle_exception_writes stop r m st _ Hr) as [Hex Hw].
    destruct (handle_exception _ _ _ _) as [[st' fl] ex]. cbn [fst snd] in *.
    destruct Hex as [-> | ->]; exact Hw.
Qed.

Lemma attempt_loop_writes cfg world stop i r : forall n a st,
  a + n = retries -> 0 < n ->
  match attempt_loop cfg world stop i r n a st with
  | (st', _, RaiseNow _) => rows st' = rows st
  | (st', _, NextAttempt) => False
  | (st', _, _) => exists row, rows st' = rows st ++ [row] /\ attempt_row r row
  end.
Proof.
  induction n as [|n IH]; intros a st Han Hn; [lia|].
  cbn [attempt_loop].
  pose proof (attempt_body_writes cfg world stop i r a st) as Hb.
  destruct (attempt_body cfg world stop i r a st) as [[st1 fl] ex].
  destruct ex; try exact Hb.
  destruct Hb as [Hr Ha].
  specialize (IH (S a) st1). rewrite Hr in IH. apply IH; lia.
Qed.

(** One recipient: no row when an exception leaves the loop, else exactly
    the row that belongs to the recipient. *)
Lemma process_recipient_writes cfg world bl stop i r st :
  match process_recipient cfg world bl stop i r st with
  | (st', Raise _) => rows st' = rows st
  | (st', _) => exists row, rows st' = rows st ++ [row] /\ row_of bl r row
  end.
Proof.
  rewrite retries_report_unreachable.
  destruct (bool_decide _) eqn:E.
  - apply bool_decide_eq_true_1 in E.
    eexists. split; [reflexivity|]. left. split; [exact E | reflexivity].
  - apply bool_decide_eq_false_1 in E.
    pose proof (attempt_loop_writes cfg world stop i r retries 0 st eq_refl) as Hl.
    destruct (attempt_loop cfg world stop i r retries 0 st) as [[st' fl] ex].
    specialize (Hl ltac:(unfold retries; lia)).
    destruct ex; try contradiction; try exact Hl;
      destruct Hl as [row [Hr Ha]]; exists row; split; auto; right; auto.
Qed.

Lemma dispatch_writes cfg world bl stop : forall recipients i st,
  exists out,
    rows (fst (dispatch cfg world bl stop i recipients st)) = rows st ++ out
    /\ length out <= length recipients
    /\ Forall2 (row_of bl) (take (length out) recipients) out.
Proof.
  induction recipients as [|r rest IH]; intros i st.
  - exists []. simpl. rewrite app_nil_r. repeat split; auto.
  - simpl.
    pose proof (process_recipient_writes cfg world bl stop i r st) as Hp.
    destruct (process_recipient cfg world bl stop i r st) as [st1 c].
    destruct c as [| |e].
    + destruct Hp as [row [Hr Hrow]].
      destruct (IH (S i) st1) as [out [Ho [Hlen Hf]]].
      exists (row :: out). rewrite Ho, Hr, <- app_assoc. simpl.
      repeat split; [lia|]. now constructor.
    + destruct Hp as [row [Hr Hrow]].
      exists [row]. simpl. repeat split; [exact Hr | lia |].
      constructor; [exact Hrow | constructor].
    + exists []. simpl. rewrite app_nil_r. repeat split; [exact Hp | lia | constructor].
Qed.

Lemma row_of_trimmed bl r row :
  row_of bl r row -> Py.strip (address row) = Py.strip (email_cell r).
Proof.
  intros [[_ ->] | [_ [Ha _]]].
  - cbn. apply strip_idem.
  - now rewrite Ha.
Qed.

Lemma row_of_status bl r row : row_of bl r row -> In (status row) statuses.
Proof.
  intros [[_ ->] | [_ [_ Hs]]].
  - cbn. tauto.
  - unfold send_statuses in Hs. cbn in Hs |- *. tauto.
Qed.

Lemma rows_trimmed bl rs out :
  Forall2 (row_of bl) rs out ->
  map Py.strip (map address out) = map Py.strip (map email_cell rs).
Proof.
  induction 1 as [|r row rs out Hrow _ IH]; [reflexivity|].
  cbn [map]. rewrite IH. f_equal. now apply (row_of_trimmed bl).
Qed.

Lemma rows_statuses bl rs out :
  Forall2 (row_of bl) rs out -> Forall (fun row => In (status row) statuses) out.
Proof.
  induction 1 as [|r row rs out Hrow _ IH]; constructor; auto.
  now apply (row_of_status bl r).
Qed.

Lemma filter_firstn_le (p : string -> bool) k l :
  length (List.filter p (firstn k l)) <= length (List.filter p l).
Proof.
  rewrite <- (firstn_skipn k l) at 2. rewrite List.filter_app, length_app. lia.
Qed.

(** C9, as the code has it. The rows of the results file belong, one each
    and in order, to the first recipients of the recipient file, so a
    recipient row gets at most one results row. The row of a suppressed
    recipient is the blacklist row with the recipient's trimmed address;
    the row of any other recipient carries the address as the file gives
    it and one of the statuses [success], [skipped],
    [skipped_policy_violation], [failed]. Every status is therefore one of
    the five, and, surrounding whitespace apart, an address occurs in the
    results at most as often as the recipient file lists it. *)
Theorem results_match_recipients cfg world env stop self bl recipients out :
  _read_blacklist (blacklist_file env) = Ok bl ->
  recipients_file env = Ok recipients ->
  results_file (send_newsletters cfg world env stop self) = Some out ->
  length out <= length recipients
  /\ Forall2 (row_of bl) (take (length out) recipients) out
  /\ Forall (fun row => In (status row) statuses) out
  /\ forall a,
       trimmed_occurrences a (map address out)
       <= trimmed_occurrences a (map email_cell recipients).
Proof.
  intros Hbl Hrec. unfold send_newsletters. rewrite Hbl.
  destruct (smtp_test env); [discriminate|].
  destruct (template_file env); [discriminate|].
  rewrite Hrec.
  assert (Hfrom : forall out : list OutcomeRecord,
             length out <= length recipients ->
             Forall2 (row_of bl) (take (length out) recipients) out ->
             length out <= length recipients
             /\ Forall2 (row_of bl) (take (length out) recipients) out
             /\ Forall (fun row => In (status row) statuses) out
             /\ forall a,
                  trimmed_occurrences a (map address out)
                  <= trimmed_occurrences a (map email_cell recipients)).
  { intros o Hlen Hf. split; [exact Hlen|]. split; [exact Hf|].
    split; [now apply (rows_statuses bl _ _ Hf)|].
    intros a. unfold trimmed_occurrences.
    rewrite (rows_trimmed bl _ _ Hf).
    unfold take. rewrite <- !firstn_map. apply filter_firstn_le. }
  destruct (session_open env).
  - cbn. intros [= <-]. apply Hfrom; [cbn; lia | constructor].
  - rewrite close_run_rows. intros [= <-].
    destruct (dispatch_writes cfg world bl stop recipients 1 (open_results self))
      as [o [Ho [Hlen Hf]]].
    cbn [rows open_results] in Ho. simpl in Ho. rewrite Ho. now apply Hfrom.
Qed.

Lemma results_match_witness :
  trimmed_occurrences "bob@x.org"
    (map address
       [ {| address := "bob@x.org"; status := "skipped_blacklist"; detail := "blacklisted" |};
         {| address := "bob@x.org"; status := "skipped_blacklist"; detail := "blacklisted" |};
         {| address := "ann@x.org"; status := "success"; detail := EmptyString |} ])
  <= trimmed_occurrences "bob@x.org"
       (map email_cell [to " bob@x.org"; bob; ann]).
Proof.
  apply (results_match_recipients cfg0 (steady (always Delivered))
           (ready ("bob@x.org" +:+ nl) [to " bob@x.org"; bob; ann]) true init
           {[ "bob@x.org" ]} [to " bob@x.org"; bob; ann]).
  - vm_compute. reflexivity.
  - reflexivity.
  - vm_compute. reflexivity.
Defined.
